(** * express-decorated-router: the metadata registry and the two-pass
      route assembly of [src/ExpressDecoratedRouter.ts]

    The module keeps six insertion-ordered tables (JavaScript [Map]s) that
    the decorators fill, and [applyRoutes] turns them into calls on the
    host framework (Express): routers are created, middleware and handlers
    are registered on them, and routers are mounted on the application or
    on their parent's router.

    The embedding is shallow.  A JavaScript [Map] is an association list
    in insertion order; a route spec, which is a plain object, is read
    and enumerated as plain objects are (inherited names are seen, array
    indices come first); the module-level tables and the host framework's
    observable state (how many routers were created, and the calls made on
    routers, in order) form one explicit state; the methods of the class
    are computations in a state-and-exception monad. *)

From stdpp Require Import base decidable option list strings.

Set Default Proof Using "Type".

(** ** JavaScript [Map]: an insertion-ordered table *)

Module JsMap.
Section jsmap.
Context {K V : Type} `{EqDecision K}.

(** [entries()] of a [Map] lists the pairs in insertion order. *)
Definition t : Type := list (K * V).

Definition empty : t := [].

(** [m.get(k)]: [None] stands for [undefined]. *)
Fixpoint get (k : K) (m : t) : option V :=
  match m with
  | [] => None
  | (k', v) :: rest => if decide (k = k') then Some v else get k rest
  end.

(** [m.has(k)] *)
Definition has (k : K) (m : t) : bool :=
  match get k m with Some _ => true | None => false end.

(** [m.set(k, v)]: a key already present keeps its position and takes
    the new value; a new key goes to the end. *)
Fixpoint set (k : K) (v : V) (m : t) : t :=
  match m with
  | [] => [(k, v)]
  | (k', v') :: rest =>
      if decide (k = k') then (k, v) :: rest else (k', v') :: set k v rest
  end.

(** [m.clear()] *)
Definition clear (m : t) : t := [].

Definition keys (m : t) : list K := m.*1.

(** At most one entry per key: what [set] maintains from [empty]. *)
Definition wf (m : t) : Prop := NoDup (keys m).

(** A table without the entry of [k]; no method of the source deletes a
    single key, this is used to state that an entry has no influence. *)
Fixpoint remove (k : K) (m : t) : t :=
  match m with
  | [] => []
  | (k', v) :: rest =>
      if decide (k = k') then remove k rest else (k', v) :: remove k rest
  end.
End jsmap.
Arguments t : clear implicits.
End JsMap.

(** ** Data model *)

(** A controller class, used as a [Map] key by reference: its identity. *)
Definition Ctrl : Type := nat.

(** A request handler or middleware function, likewise by identity. *)
Definition RequestHandler : Type := nat.

(** [PathParams] is a string, a [RegExp] or an array of those.  As a
    [Map] key a string is compared by value, an object by identity. *)
Inductive PathParams : Type :=
| PathStr (s : string)
| PathObj (id : nat).

#[global] Instance PathParams_eq_dec : EqDecision PathParams.
Proof. solve_decision. Defined.

(** Options handed to [express.Router()]. *)
Record RouterOptions : Type := mkRouterOptions {
  caseSensitive : option bool;
  mergeParams : option bool;
  strict : option bool
}.

(** A router object of the host framework.  [External] routers are those
    the caller owns (the application); [Created n] is the [n]-th router
    returned by [express.Router()]. *)
Inductive IRouter : Type :=
| External (id : nat)
| Created (serial : nat).

#[global] Instance IRouter_eq_dec : EqDecision IRouter.
Proof. solve_decision. Defined.

(** [type HttpMethodSpec = Map<PathParams, RequestHandler>] *)
Definition HttpMethodSpec : Type := JsMap.t PathParams RequestHandler.

(** [interface RouteSpec { [httpMethod: string]: HttpMethodSpec }]: a plain
    object ([{}]) used as a table.  Its own properties are kept in the
    order of their creation; reading a property and enumerating the
    object follow the rules of plain objects, below. *)
Definition RouteSpec : Type := JsMap.t string HttpMethodSpec.

(** ** JavaScript plain objects *)

(** The property names that a plain object inherits from
    [Object.prototype] (ECMAScript, with the legacy names that Node
    provides).  Read on [{}], each gives a function or an object, not
    [undefined]. *)
Definition Object_prototype : list string :=
  ["constructor"; "hasOwnProperty"; "isPrototypeOf";
   "propertyIsEnumerable"; "toLocaleString"; "toString"; "valueOf";
   "__proto__"; "__defineGetter__"; "__defineSetter__";
   "__lookupGetter__"; "__lookupSetter__"].

(** What [o[name]] evaluates to: an own property, else an inherited one,
    else [undefined]. *)
Inductive Property (V : Type) : Type :=
| Own (v : V)
| Inherited
| Undefined.
Arguments Own {V} v.
Arguments Inherited {V}.
Arguments Undefined {V}.

Definition getProperty {V} (name : string) (o : JsMap.t string V)
    : Property V :=
  match JsMap.get name o with
  | Some v => Own v
  | None =>
      if bool_decide (name ∈ Object_prototype) then Inherited else Undefined
  end.

(** The number that a string of decimal digits denotes. *)
Fixpoint decimal (s : string) (acc : N) : option N :=
  match s with
  | EmptyString => Some acc
  | String a rest =>
      let d := Ascii.N_of_ascii a in
      if ((48 <=? d) && (d <=? 57))%N then
        decimal rest (10 * acc + (d - 48))%N
      else None
  end.

(** A property name that is an array index: the canonical decimal form,
    without sign or leading zero, of an integer below [2^32 - 1]. *)
Definition array_index (name : string) : option N :=
  match name with
  | EmptyString => None
  | String a rest =>
      if (Ascii.N_of_ascii a =? 48)%N then
        match rest with
        | EmptyString => Some 0%N
        | String _ _ => None
        end
      else
        match decimal name 0 with
        | Some n => if (n <? 4294967295)%N then Some n else None
        | None => None
        end
  end.

Fixpoint insert_indexed {V} (x : N * (string * V))
    (l : list (N * (string * V))) : list (N * (string * V)) :=
  match l with
  | [] => [x]
  | y :: rest =>
      if (x.1 <=? y.1)%N then x :: y :: rest
      else y :: insert_indexed x rest
  end.

Definition sort_indexed {V} (l : list (N * (string * V)))
    : list (N * (string * V)) :=
  foldr insert_indexed [] l.

Definition indexed_entries {V} (o : JsMap.t string V)
    : list (N * (string * V)) :=
  omap (fun e => (fun i => (i, e)) <$> array_index e.1) o.

Definition named_entries {V} (o : list (string * V)) : list (string * V) :=
  filter (fun e => array_index e.1 = None) o.

(** The own properties in the order in which the object is enumerated
    ([Object.keys], [for ... in], lodash [forEach]): the array indices in
    ascending numeric order, then the other names in the order of their
    creation. *)
Definition ownEntries {V} (o : JsMap.t string V) : list (string * V) :=
  (sort_indexed (indexed_entries o)).*2 ++ named_entries o.

Record ControllerSpec : Type := mkControllerSpec {
  opts : option RouterOptions;
  root : PathParams
}.

(** Calls received by the host framework, as call-order instrumentation
    would record them. *)
Inductive Call : Type :=
| CreateRouter (r : IRouter) (o : option RouterOptions)
    (* [createRouter(o)] returned [r] *)
| Use (r : IRouter) (mw : list RequestHandler)
    (* [r.use(mw)] *)
| UsePath (r : IRouter) (p : PathParams) (mw : list RequestHandler)
    (* [r.use(p, mw)] *)
| Verb (r : IRouter) (m : string) (p : PathParams) (h : RequestHandler)
    (* [r[m](p, h)] *)
| Mount (r : IRouter) (p : PathParams) (sub : IRouter).
    (* [r.use(p, sub)] *)

(** What the methods can throw.  [TypeError] is the runtime's error: for
    reading [root] of [undefined] in [processParents], and for calling
    [set] on a value that has none in [addRoute]. *)
Inductive Exn : Type :=
| ParentControllerError (child parent : Ctrl)
| UnregisteredControllerError (child : Ctrl)
| TypeError.

(** The six module-level tables, and the host framework's state. *)
Record State : Type := mkState {
  routeMap : JsMap.t Ctrl RouteSpec;
  controllerMap : JsMap.t Ctrl ControllerSpec;
  controllerMiddlewareMap : JsMap.t Ctrl (list RequestHandler);
  routeMiddlewareMap : JsMap.t RequestHandler (list RequestHandler);
  routerMap : JsMap.t Ctrl IRouter;
  parentMap : JsMap.t Ctrl Ctrl;
  created : nat;
  calls : list Call
}.

(** The state when the module has just been loaded. *)
Definition initial : State := mkState [] [] [] [] [] [] 0 [].

Definition with_routeMap (f : JsMap.t Ctrl RouteSpec -> JsMap.t Ctrl RouteSpec)
    (s : State) : State :=
  mkState (f (routeMap s)) (controllerMap s) (controllerMiddlewareMap s)
    (routeMiddlewareMap s) (routerMap s) (parentMap s) (created s) (calls s).

Definition with_controllerMap
    (f : JsMap.t Ctrl ControllerSpec -> JsMap.t Ctrl ControllerSpec)
    (s : State) : State :=
  mkState (routeMap s) (f (controllerMap s)) (controllerMiddlewareMap s)
    (routeMiddlewareMap s) (routerMap s) (parentMap s) (created s) (calls s).

Definition with_controllerMiddlewareMap
    (f : JsMap.t Ctrl (list RequestHandler) ->
         JsMap.t Ctrl (list RequestHandler))
    (s : State) : State :=
  mkState (routeMap s) (controllerMap s) (f (controllerMiddlewareMap s))
    (routeMiddlewareMap s) (routerMap s) (parentMap s) (created s) (calls s).

Definition with_routeMiddlewareMap
    (f : JsMap.t RequestHandler (list RequestHandler) ->
         JsMap.t RequestHandler (list RequestHandler))
    (s : State) : State :=
  mkState (routeMap s) (controllerMap s) (controllerMiddlewareMap s)
    (f (routeMiddlewareMap s)) (routerMap s) (parentMap s) (created s)
    (calls s).

Definition with_routerMap (f : JsMap.t Ctrl IRouter -> JsMap.t Ctrl IRouter)
    (s : State) : State :=
  mkState (routeMap s) (controllerMap s) (controllerMiddlewareMap s)
    (routeMiddlewareMap s) (f (routerMap s)) (parentMap s) (created s)
    (calls s).

Definition with_parentMap (f : JsMap.t Ctrl Ctrl -> JsMap.t Ctrl Ctrl)
    (s : State) : State :=
  mkState (routeMap s) (controllerMap s) (controllerMiddlewareMap s)
    (routeMiddlewareMap s) (routerMap s) (f (parentMap s)) (created s)
    (calls s).

(** The host framework records the calls [cs], after those it has. *)
Definition emit (cs : list Call) (s : State) : State :=
  mkState (routeMap s) (controllerMap s) (controllerMiddlewareMap s)
    (routeMiddlewareMap s) (routerMap s) (parentMap s) (created s)
    (calls s ++ cs).

(** ** The monad: state, and exceptions that keep the state reached *)

Inductive Result (A : Type) : Type :=
| Ok (a : A)
| Throw (e : Exn).
Arguments Ok {A} a.
Arguments Throw {A} e.

Definition M (A : Type) : Type := State -> Result A * State.

Definition ret {A} (a : A) : M A := fun s => (Ok a, s).

Definition bind {A B} (c : M A) (k : A -> M B) : M B :=
  fun s =>
    match c s with
    | (Ok a, s') => k a s'
    | (Throw e, s') => (Throw e, s')
    end.

Definition throw {A} (e : Exn) : M A := fun s => (Throw e, s).

Definition gets {A} (f : State -> A) : M A := fun s => (Ok (f s), s).

Definition modify (f : State -> State) : M unit := fun s => (Ok tt, f s).

Notation "x <- c ;; k" := (bind c (fun x => k))
  (at level 100, c at next level, right associativity).
Notation "c ;; k" := (bind c (fun _ => k))
  (at level 100, right associativity).

(** [for (const x of l) body(x)], where the body leaves the iterated
    table as it is (as both loops of [applyRoutes] do). *)
Fixpoint forOf {A} (l : list A) (body : A -> M unit) : M unit :=
  match l with
  | [] => ret tt
  | x :: rest => body x ;; forOf rest body
  end.

(** ** The host framework *)

(** [createRouter(opts)]: a new router object, distinct from all others. *)
Definition createRouter (o : option RouterOptions) : M IRouter :=
  fun s =>
    let r := Created (created s) in
    (Ok r,
     mkState (routeMap s) (controllerMap s) (controllerMiddlewareMap s)
       (routeMiddlewareMap s) (routerMap s) (parentMap s) (S (created s))
       (calls s ++ [CreateRouter r o])).

(** Any other call on a router: the host framework records it.  What the
    framework does with a call, and whether it accepts it (a router has
    no method for every name, and may refuse an empty middleware list),
    is its own business and not modelled: the record says which calls the
    module makes, and in which order. *)
Definition host (c : Call) : M unit := modify (emit [c]).

(** [isEmpty] of lodash, on a plain object: no own enumerable key. *)
Definition isEmpty {K V} (o : list (K * V)) : bool :=
  match o with [] => true | _ :: _ => false end.

(** ** The class [ExpressDecoratedRouter] *)

(** The route tables are objects held by reference: [addRoute] changes
    them in place.  With values for objects, a change is written back
    under the same keys, which keeps every entry at its position. *)

(** [routeSpec[httpMethod] = spec], on the object that [routeMap] holds
    for [clazz]. *)
Definition assignMethodSpec (clazz : Ctrl) (httpMethod : string)
    (spec : HttpMethodSpec) : State -> State :=
  with_routeMap (fun rm =>
    match JsMap.get clazz rm with
    | Some routeSpec =>
        JsMap.set clazz (JsMap.set httpMethod spec routeSpec) rm
    | None => rm
    end).

(** [httpMethodSpec.set(path, handler)], on the [Map] that the route spec
    of [clazz] holds for [httpMethod]. *)
Definition setHandler (clazz : Ctrl) (httpMethod : string)
    (path : PathParams) (handler : RequestHandler) : State -> State :=
  with_routeMap (fun rm =>
    match JsMap.get clazz rm with
    | Some routeSpec =>
        match JsMap.get httpMethod routeSpec with
        | Some httpMethodSpec =>
            JsMap.set clazz
              (JsMap.set httpMethod
                 (JsMap.set path handler httpMethodSpec) routeSpec) rm
        | None => rm
        end
    | None => rm
    end).

Definition addController (clazz : Ctrl) (root : PathParams)
    (opts : option RouterOptions) : M unit :=
  modify (with_controllerMap (JsMap.set clazz (mkControllerSpec opts root))).

Definition addControllerMiddleware (clazz : Ctrl)
    (middleware : list RequestHandler) : M unit :=
  modify (with_controllerMiddlewareMap (JsMap.set clazz middleware)).

Definition addParent (child parent : Ctrl) : M unit :=
  modify (with_parentMap (JsMap.set child parent)).

Definition addRoute (clazz : Ctrl) (httpMethod : string) (path : PathParams)
    (handler : RequestHandler) : M unit :=
  found <- gets (fun s => JsMap.get clazz (routeMap s)) ;;
  routeSpec <-
    match found with
    | None =>
        modify (with_routeMap (JsMap.set clazz JsMap.empty)) ;;
        ret (JsMap.empty : RouteSpec)
    | Some routeSpec => ret routeSpec
    end ;;
  match getProperty httpMethod routeSpec with
  | Undefined =>
      modify (assignMethodSpec clazz httpMethod JsMap.empty) ;;
      modify (setHandler clazz httpMethod path handler)
  | Own _ => modify (setHandler clazz httpMethod path handler)
  | Inherited =>
      (* [httpMethodSpec] is the inherited value, which has no [set] *)
      throw TypeError
  end.

Definition addRouteMiddleware (route : RequestHandler)
    (middleware : list RequestHandler) : M unit :=
  modify (with_routeMiddlewareMap (JsMap.set route middleware)).

Definition reset : M unit :=
  modify (with_routeMap JsMap.clear) ;;
  modify (with_controllerMap JsMap.clear) ;;
  modify (with_controllerMiddlewareMap JsMap.clear) ;;
  modify (with_routeMiddlewareMap JsMap.clear) ;;
  modify (with_routerMap JsMap.clear) ;;
  modify (with_parentMap JsMap.clear).

Definition processControllerMiddleware (router : IRouter) (controller : Ctrl)
    : M unit :=
  found <- gets (fun s => JsMap.get controller (controllerMiddlewareMap s)) ;;
  match found with
  | Some controllerMiddleware => host (Use router controllerMiddleware)
  | None => ret tt
  end.

Definition processRouteMiddleware (router : IRouter) (pathParams : PathParams)
    (routeMiddleware : option (list RequestHandler)) : M unit :=
  match routeMiddleware with
  | Some ((_ :: _) as mw) => host (UsePath router pathParams mw)
  | _ => ret tt
  end.

Definition processHttpMethodSpec (router : IRouter) (pathParams : PathParams)
    (requestHandler : RequestHandler) (httpMethod : string) : M unit :=
  routeMiddleware <-
    gets (fun s => JsMap.get requestHandler (routeMiddlewareMap s)) ;;
  processRouteMiddleware router pathParams routeMiddleware ;;
  host (Verb router httpMethod pathParams requestHandler).

Definition processRouteSpec (router : IRouter) (controller : Ctrl)
    (httpMethod : string) (httpMethodSpec : HttpMethodSpec) : M unit :=
  forOf httpMethodSpec (fun httpMethodSpecEntry =>
    processHttpMethodSpec router httpMethodSpecEntry.1 httpMethodSpecEntry.2
      httpMethod).

(** [routeMap.has(controller)] and the [get] that follows it are one
    lookup here. *)
Definition processController (app : IRouter) (controller : Ctrl)
    (controllerSpec : ControllerSpec) : M unit :=
  found <- gets (fun s => JsMap.get controller (routeMap s)) ;;
  match found with
  | None => ret tt
  | Some routeSpec =>
      if isEmpty routeSpec then ret tt
      else
        router <- createRouter (opts controllerSpec) ;;
        processControllerMiddleware router controller ;;
        forOf (ownEntries routeSpec) (fun e =>
          processRouteSpec router controller e.1 e.2) ;;
        modify (with_routerMap (JsMap.set controller router)) ;;
        hasParent <- gets (fun s => JsMap.has controller (parentMap s)) ;;
        if hasParent then ret tt
        else host (Mount app (root controllerSpec) router)
  end.

Definition processParents (child parent : Ctrl) : M unit :=
  parentRouter <- gets (fun s => JsMap.get parent (routerMap s)) ;;
  match parentRouter with
  | Some parentRouter =>
      childRouter <- gets (fun s => JsMap.get child (routerMap s)) ;;
      match childRouter with
      | Some childRouter =>
          childSpec <- gets (fun s => JsMap.get child (controllerMap s)) ;;
          parentMiddleware <-
            gets (fun s => JsMap.get parent (controllerMiddlewareMap s)) ;;
          match parentMiddleware with
          | Some ((_ :: _) as mw) => host (Use childRouter mw)
          | _ => ret tt
          end ;;
          match childSpec with
          | Some childSpec =>
              host (Mount parentRouter (root childSpec) childRouter)
          | None => throw TypeError
          end
      | None => throw (UnregisteredControllerError child)
      end
  | None => throw (ParentControllerError child parent)
  end.

(** The first loop of [applyRoutes]. *)
Definition pass1 (app : IRouter) : M unit :=
  entries <- gets controllerMap ;;
  forOf entries (fun controllerMapEntry =>
    processController app controllerMapEntry.1 controllerMapEntry.2).

(** The second loop of [applyRoutes]. *)
Definition pass2 : M unit :=
  entries <- gets parentMap ;;
  forOf entries (fun parentMapEntry =>
    processParents parentMapEntry.1 parentMapEntry.2).

Definition applyRoutes (app : IRouter) : M unit :=
  pass1 app ;; pass2.

(** Running a computation: the state it leaves, and its outcome. *)
Definition exec {A} (c : M A) (s : State) : State := (c s).2.
Definition outcome {A} (c : M A) (s : State) : Result A := (c s).1.

(** A small scenario: controller [1] at [/a] with [GET /x -> 10] guarded by
    route middleware [20], controller [2] at [/b] with [GET /y -> 11],
    child of [1], which has controller middleware [30]. *)
Definition demo : M unit :=
  addController 1 (PathStr "/a") None ;;
  addRoute 1 "get" (PathStr "/x") 10 ;;
  addRouteMiddleware 10 [20] ;;
  addControllerMiddleware 1 [30] ;;
  addController 2 (PathStr "/b") None ;;
  addRoute 2 "get" (PathStr "/y") 11 ;;
  addParent 2 1.

(** ** Observations on the host's record of calls *)

(** The router a call is made on.  Creating a router is a call on the
    framework, not on a router. *)
Definition receiver (c : Call) : option IRouter :=
  match c with
  | CreateRouter _ _ => None
  | Use r _ | UsePath r _ _ | Verb r _ _ _ | Mount r _ _ => Some r
  end.

(** The calls made on router [r], in order: its dispatch stack. *)
Definition stack_of (r : IRouter) (cs : list Call) : list Call :=
  filter (fun c => receiver c = Some r) cs.

Definition is_mount (c : Call) : bool :=
  match c with Mount _ _ _ => true | _ => false end.

(** [r.use(mw)]: middleware global to the router. *)
Definition is_use (c : Call) : bool :=
  match c with Use _ _ => true | _ => false end.

(** A handler registration for [httpMethod] and [path]. *)
Definition is_verb_for (httpMethod : string) (path : PathParams) (c : Call)
    : bool :=
  match c with
  | Verb _ m p _ => bool_decide (m = httpMethod) && bool_decide (p = path)
  | _ => false
  end.

(** The handler registered for a method and path of a controller. *)
Definition route_of (clazz : Ctrl) (httpMethod : string) (path : PathParams)
    (s : State) : option RequestHandler :=
  match JsMap.get clazz (routeMap s) with
  | Some routeSpec =>
      match JsMap.get httpMethod routeSpec with
      | Some httpMethodSpec => JsMap.get path httpMethodSpec
      | None => None
      end
  | None => None
  end.

(** The controller has a route spec that is not empty: Pass 1 assembles a
    router for it. *)
Definition assembles (c : Ctrl) (s : State) : bool :=
  match JsMap.get c (routeMap s) with
  | Some (_ :: _) => true
  | _ => false
  end.

(** ** The calls of Pass 1, as functions of the tables

    These describe what the monadic code emits; the lemmas [*_run] below
    prove that they do. *)

Definition routeMiddleware_calls (s : State) (router : IRouter)
    (path : PathParams) (handler : RequestHandler) : list Call :=
  match JsMap.get handler (routeMiddlewareMap s) with
  | Some ((_ :: _) as mw) => [UsePath router path mw]
  | _ => []
  end.

Definition handler_calls (s : State) (router : IRouter) (httpMethod : string)
    (e : PathParams * RequestHandler) : list Call :=
  routeMiddleware_calls s router e.1 e.2 ++ [Verb router httpMethod e.1 e.2].

Definition method_calls (s : State) (router : IRouter)
    (e : string * HttpMethodSpec) : list Call :=
  flat_map (handler_calls s router e.1) e.2.

Definition routes_calls (s : State) (router : IRouter)
    (routes : list (string * HttpMethodSpec)) : list Call :=
  flat_map (method_calls s router) routes.

Definition controllerMiddleware_calls (s : State) (router : IRouter)
    (c : Ctrl) : list Call :=
  match JsMap.get c (controllerMiddlewareMap s) with
  | Some mw => [Use router mw]
  | None => []
  end.

Definition mount_calls (s : State) (app : IRouter) (c : Ctrl)
    (spec : ControllerSpec) (router : IRouter) : list Call :=
  if JsMap.has c (parentMap s) then [] else [Mount app (root spec) router].

(** The registrations on the router of [c], for its routes in the order
    [routes], then its mount if it has no parent. *)
Definition assembly_calls (s : State) (app : IRouter) (c : Ctrl)
    (spec : ControllerSpec) (router : IRouter)
    (routes : list (string * HttpMethodSpec)) : list Call :=
  controllerMiddleware_calls s router c ++ routes_calls s router routes
  ++ mount_calls s app c spec router.

Definition controller_calls (app : IRouter) (c : Ctrl) (spec : ControllerSpec)
    (n : nat) (s : State) : list Call :=
  match JsMap.get c (routeMap s) with
  | Some ((_ :: _) as routeSpec) =>
      CreateRouter (Created n) (opts spec)
      :: assembly_calls s app c spec (Created n) (ownEntries routeSpec)
  | _ => []
  end.

(** The state that [processController] leaves. *)
Definition after_controller (app : IRouter) (c : Ctrl) (spec : ControllerSpec)
    (s : State) : State :=
  if assembles c s then
    mkState (routeMap s) (controllerMap s) (controllerMiddlewareMap s)
      (routeMiddlewareMap s)
      (JsMap.set c (Created (created s)) (routerMap s)) (parentMap s)
      (S (created s)) (calls s ++ controller_calls app c spec (created s) s)
  else s.

(** The calls of [processParents] when both routers resolve. *)
Definition parentMiddleware_calls (s : State) (parent : Ctrl)
    (childRouter : IRouter) : list Call :=
  match JsMap.get parent (controllerMiddlewareMap s) with
  | Some ((_ :: _) as mw) => [Use childRouter mw]
  | _ => []
  end.

(** The state after the first loop has run over the entries [l]. *)
Definition assemble (app : IRouter) (l : list (Ctrl * ControllerSpec))
    (s : State) : State :=
  foldl (fun st e => after_controller app e.1 e.2 st) s l.

(** The calls of the first loop over the entries [l], when [n] routers
    exist beforehand. *)
Fixpoint pass1_calls (app : IRouter) (l : list (Ctrl * ControllerSpec))
    (n : nat) (s : State) : list Call :=
  match l with
  | [] => []
  | e :: rest =>
      controller_calls app e.1 e.2 n s
      ++ pass1_calls app rest (if assembles e.1 s then S n else n) s
  end.

(** The tables that Pass 1 reads and leaves as they are. *)
Definition same_input (s s' : State) : Prop :=
  routeMap s = routeMap s'
  /\ controllerMap s = controllerMap s'
  /\ controllerMiddlewareMap s = controllerMiddlewareMap s'
  /\ routeMiddlewareMap s = routeMiddlewareMap s'
  /\ parentMap s = parentMap s'.

(** The routers a call involves, as receiver or as argument. *)
Definition routers_of (c : Call) : list IRouter :=
  match c with
  | CreateRouter r _ | Use r _ | UsePath r _ _ | Verb r _ _ _ => [r]
  | Mount r _ sub => [r; sub]
  end.

(** The calls that involve only created routers of serial in [lo, hi). *)
Definition serials_within (lo : nat) (hi : option nat) (cs : list Call)
    : Prop :=
  Forall (fun c => forall j, Created j ∈ routers_of c ->
            lo <= j /\ match hi with Some h => j < h | None => True end) cs.

(** [sub] is mounted by the call, on whatever router. *)
Definition is_mount_of (sub : IRouter) (c : Call) : Prop :=
  match c with Mount _ _ r => r = sub | _ => False end.

#[global] Instance is_mount_of_dec sub c : Decision (is_mount_of sub c).
Proof. destruct c; simpl; apply _. Defined.

(** The body of the second loop. *)
Definition wire (parentMapEntry : Ctrl * Ctrl) : M unit :=
  processParents parentMapEntry.1 parentMapEntry.2.

(** The registry and the router counter are the same; only the host's
    record of calls may differ. *)
Definition same_registry (s s' : State) : Prop :=
  same_input s s' /\ routerMap s = routerMap s' /\ created s = created s'.

(** Controller [3] has routes and is declared a child of [9], which was
    never declared; controller [5] can be wired under [3] and comes first
    in the parent table; controller [4] comes last. *)
Definition orphans : M unit :=
  addController 3 (PathStr "/c") None ;;
  addRoute 3 "get" (PathStr "/") 12 ;;
  addController 4 (PathStr "/d") None ;;
  addRoute 4 "get" (PathStr "/") 14 ;;
  addController 5 (PathStr "/e") None ;;
  addRoute 5 "post" (PathStr "/") 13 ;;
  addParent 5 3 ;;
  addParent 3 9 ;;
  addParent 4 3.

(** Controller [7] has no routes and is declared a child of [6]. *)
Definition routeless_child : M unit :=
  addController 6 (PathStr "/a") None ;;
  addRoute 6 "get" (PathStr "/x") 15 ;;
  addController 7 (PathStr "/d") None ;;
  addParent 7 6.

(** The state in which controller [c] was never declared. *)
Definition undeclare (c : Ctrl) : State -> State :=
  with_controllerMap (JsMap.remove c).

(** What [addRoute] makes of the route table. *)
Definition put_route (clazz : Ctrl) (httpMethod : string) (path : PathParams)
    (handler : RequestHandler) (rm : JsMap.t Ctrl RouteSpec)
    : JsMap.t Ctrl RouteSpec :=
  let routeSpec := default JsMap.empty (JsMap.get clazz rm) in
  let httpMethodSpec := default JsMap.empty (JsMap.get httpMethod routeSpec) in
  JsMap.set clazz
    (JsMap.set httpMethod (JsMap.set path handler httpMethodSpec) routeSpec)
    rm.

(** What an [addRoute] that throws makes of the route table: it has stored
    an empty route spec for a class that had none. *)
Definition open_routes (clazz : Ctrl) (rm : JsMap.t Ctrl RouteSpec)
    : JsMap.t Ctrl RouteSpec :=
  match JsMap.get clazz rm with
  | Some _ => rm
  | None => JsMap.set clazz JsMap.empty rm
  end.

(** What [routeSpec[httpMethod]] evaluates to in [addRoute]. *)
Definition method_property (clazz : Ctrl) (httpMethod : string) (s : State)
    : Property HttpMethodSpec :=
  getProperty httpMethod (default JsMap.empty (JsMap.get clazz (routeMap s))).

(** At most one entry per key, in a route table and in the tables it
    holds. *)
Definition wf_routes (rm : JsMap.t Ctrl RouteSpec) : Prop :=
  JsMap.wf rm
  /\ forall c routeSpec, (c, routeSpec) ∈ rm ->
       JsMap.wf routeSpec
       /\ forall m httpMethodSpec, (m, httpMethodSpec) ∈ routeSpec ->
            JsMap.wf httpMethodSpec.

(** At most one entry per key in every table of the registry: a [Map]
    cannot hold more. *)
Record wf_state (s : State) : Prop := mk_wf_state {
  wf_routeMap : wf_routes (routeMap s);
  wf_controllerMap : JsMap.wf (controllerMap s);
  wf_controllerMiddlewareMap : JsMap.wf (controllerMiddlewareMap s);
  wf_routeMiddlewareMap : JsMap.wf (routeMiddlewareMap s);
  wf_routerMap : JsMap.wf (routerMap s);
  wf_parentMap : JsMap.wf (parentMap s)
}.

(** Controller [1] is declared, nothing else. *)
Definition declared_only : M unit :=
  addController 1 (PathStr "/a") None.

(** ** Registration scripts and assembly cycles *)

(** One registration call, as a decorator makes it. *)
Inductive Registration : Type :=
| RegController (clazz : Ctrl) (root : PathParams)
    (opts : option RouterOptions)
| RegControllerMiddleware (clazz : Ctrl) (middleware : list RequestHandler)
| RegParent (child parent : Ctrl)
| RegRoute (clazz : Ctrl) (httpMethod : string) (path : PathParams)
    (handler : RequestHandler)
| RegRouteMiddleware (route : RequestHandler)
    (middleware : list RequestHandler).

Definition register (r : Registration) : M unit :=
  match r with
  | RegController clazz root opts => addController clazz root opts
  | RegControllerMiddleware clazz middleware =>
      addControllerMiddleware clazz middleware
  | RegParent child parent => addParent child parent
  | RegRoute clazz httpMethod path handler =>
      addRoute clazz httpMethod path handler
  | RegRouteMiddleware route middleware => addRouteMiddleware route middleware
  end.

(** The method name of a route registration is not a name that plain
    objects inherit; the other registrations have no such name. *)
Definition own_method (r : Registration) : Prop :=
  match r with
  | RegRoute _ httpMethod _ _ => httpMethod ∉ Object_prototype
  | _ => True
  end.

(** The registrations in order, then the assembly. *)
Definition cycle (app : IRouter) (rs : list Registration) : M unit :=
  forOf rs register ;; applyRoutes app.

(** The same mount tree with other router objects: the created routers
    renamed by a shift of their serial. *)
Definition shift_router (k : nat) (r : IRouter) : IRouter :=
  match r with
  | External a => External a
  | Created n => Created (k + n)
  end.

Definition shift_call (k : nat) (c : Call) : Call :=
  match c with
  | CreateRouter r o => CreateRouter (shift_router k r) o
  | Use r mw => Use (shift_router k r) mw
  | UsePath r p mw => UsePath (shift_router k r) p mw
  | Verb r m p h => Verb (shift_router k r) m p h
  | Mount r p sub => Mount (shift_router k r) p (shift_router k sub)
  end.

(** The state [s] as it shows when [k] routers were created and the calls
    [old] were made before it started: same tables, routers renamed. *)
Definition relocate (k : nat) (old : list Call) (s : State) : State :=
  mkState (routeMap s) (controllerMap s) (controllerMiddlewareMap s)
    (routeMiddlewareMap s) (prod_map id (shift_router k) <$> routerMap s)
    (parentMap s) (k + created s) (old ++ (shift_call k <$> calls s)).

(** A computation that behaves the same wherever it starts. *)
Definition relocatable {A} (c : M A) : Prop :=
  forall k old s, c (relocate k old s) = ((c s).1, relocate k old (c s).2).

(** All six tables are empty. *)
Definition tables_empty (s : State) : Prop :=
  routeMap s = [] /\ controllerMap s = [] /\ controllerMiddlewareMap s = []
  /\ routeMiddlewareMap s = [] /\ routerMap s = [] /\ parentMap s = [].

(** The registrations of [demo], as a script. *)
Definition demo_script : list Registration :=
  [RegController 1 (PathStr "/a") None;
   RegRoute 1 "get" (PathStr "/x") 10;
   RegRouteMiddleware 10 [20];
   RegControllerMiddleware 1 [30];
   RegController 2 (PathStr "/b") None;
   RegRoute 2 "get" (PathStr "/y") 11;
   RegParent 2 1].

(** ** Reachable states *)

(** The states the module can be in: from the initial state, by the
    public methods, and, inside a run of [applyRoutes], by a step of
    either loop on an entry of the table it iterates. *)
Inductive reachable : State -> Prop :=
| reach_initial : reachable initial
| reach_register r s : reachable s -> reachable (exec (register r) s)
| reach_reset s : reachable s -> reachable (exec reset s)
| reach_applyRoutes app s :
    reachable s -> reachable (exec (applyRoutes app) s)
| reach_processController app c spec s :
    reachable s -> (c, spec) ∈ controllerMap s ->
    reachable (exec (processController app c spec) s)
| reach_processParents child parent s :
    reachable s -> (child, parent) ∈ parentMap s ->
    reachable (exec (processParents child parent) s).

(** Every controller that has a router has a controller spec. *)
Definition routers_have_specs (s : State) : Prop :=
  forall c r, JsMap.get c (routerMap s) = Some r ->
    is_Some (JsMap.get c (controllerMap s)).

(** The state after the registrations [rs], from [s]. *)
Definition registered (rs : list Registration) (s : State) : State :=
  foldl (fun st r => exec (register r) st) s rs.

(** Controller [1] has a route whose handler has an empty route
    middleware list, and an empty controller middleware list. *)
Definition empty_middleware : M unit :=
  addController 1 (PathStr "/a") None ;;
  addRoute 1 "get" (PathStr "/x") 10 ;;
  addRouteMiddleware 10 [] ;;
  addControllerMiddleware 1 [].

(** ** Further observations *)

(** The entries of the controller table for which Pass 1 builds a router,
    in the order of the table. *)
Definition assembled_entries (s : State) : list (Ctrl * ControllerSpec) :=
  filter (fun e => assembles e.1 s = true) (controllerMap s).

(** The controller is declared and has routes. *)
Definition assembled (c : Ctrl) (s : State) : Prop :=
  assembles c s = true /\ c ∈ JsMap.keys (controllerMap s).

Definition is_create (c : Call) : bool :=
  match c with CreateRouter _ _ => true | _ => false end.

(** A middleware registration that carries at least one middleware. *)
Definition carries_middleware (c : Call) : Prop :=
  match c with
  | Use _ mw | UsePath _ _ mw => mw <> []
  | _ => True
  end.

(** The same, for path-scoped registrations only. *)
Definition carries_route_middleware (c : Call) : Prop :=
  match c with
  | UsePath _ _ mw => mw <> []
  | _ => True
  end.

(** ** The [Method] decorator, [src/decorators/method/Method.ts] *)

(** Of a property descriptor, the decorator reads [value]: the decorated
    function. *)
Record PropertyDescriptor : Type := mkPropertyDescriptor {
  value : RequestHandler
}.

(** [Method(httpMethod, path)(target, _key, descriptor)] *)
Definition Method (httpMethod : string) (path : PathParams) (target : Ctrl)
    (_key : string) (descriptor : PropertyDescriptor) : M unit :=
  addRoute target httpMethod path (value descriptor).

(** The table a registration writes. *)
Inductive Table : Type :=
| TControllers | TControllerMiddleware | TParents | TRoutes | TRouteMiddleware.

#[global] Instance Table_eq_dec : EqDecision Table.
Proof. solve_decision. Defined.

Definition table_of (r : Registration) : Table :=
  match r with
  | RegController _ _ _ => TControllers
  | RegControllerMiddleware _ _ => TControllerMiddleware
  | RegParent _ _ => TParents
  | RegRoute _ _ _ _ => TRoutes
  | RegRouteMiddleware _ _ => TRouteMiddleware
  end.

(** Every recorded router is one the host created, no two controllers
    share one, and every table has one entry per key at most. *)
Record registry_inv (s : State) : Prop := mk_registry_inv {
  inv_wf : wf_state s;
  inv_fresh : forall c r, JsMap.get c (routerMap s) = Some r ->
                exists n, r = Created n /\ n < created s;
  inv_injective : forall c c' r,
      JsMap.get c (routerMap s) = Some r ->
      JsMap.get c' (routerMap s) = Some r -> c = c'
}.

(** Every recorded router was created by the host, none is the caller's. *)
Definition routers_created (s : State) : Prop :=
  forall c r, JsMap.get c (routerMap s) = Some r -> exists n, r = Created n.

(** The entries of the controller table that have routes and no parent
    entry, in the order of the table. *)
Definition root_entries (s : State) : list (Ctrl * ControllerSpec) :=
  filter (fun e => assembles e.1 s = true
                   /\ JsMap.get e.1 (parentMap s) = None)
    (controllerMap s).

(** The calls of the second loop for one pair whose routers and child
    spec are found; none otherwise. *)
Definition wiring_calls (t : State) (e : Ctrl * Ctrl) : list Call :=
  match JsMap.get e.2 (routerMap t), JsMap.get e.1 (routerMap t),
        JsMap.get e.1 (controllerMap t) with
  | Some parentRouter, Some childRouter, Some childSpec =>
      parentMiddleware_calls t e.2 childRouter
      ++ [Mount parentRouter (root childSpec) childRouter]
  | _, _, _ => []
  end.

(** The routes of a list of methods with their maps, method by method and
    within a method in the order of the map. *)
Definition method_routes (e : string * HttpMethodSpec)
    : list (string * PathParams * RequestHandler) :=
  (fun x => (e.1, x.1, x.2)) <$> e.2.

Definition route_list (rs : list (string * HttpMethodSpec))
    : list (string * PathParams * RequestHandler) :=
  flat_map method_routes rs.

(** The routes of a controller in the order in which its route spec and
    the maps in it are enumerated; none without a route spec. *)
Definition routes_in_order (c : Ctrl) (s : State)
    : list (string * PathParams * RequestHandler) :=
  match JsMap.get c (routeMap s) with
  | Some rs => route_list (ownEntries rs)
  | None => []
  end.

(** The map of paths that a controller has for a method. *)
Definition method_spec (c : Ctrl) (m : string) (s : State)
    : option HttpMethodSpec :=
  match JsMap.get c (routeMap s) with
  | Some rs => JsMap.get m rs
  | None => None
  end.

(** The route a handler registration is for; [None] for any other call. *)
Definition verb_route (c : Call)
    : option (string * PathParams * RequestHandler) :=
  match c with Verb _ m p h => Some (m, p, h) | _ => None end.

(** What Pass 2 calls on the router [r] of controller [c] for one pair of
    the parent table: the parent's middleware when [c] is the child, the
    mount of the child's router when [c] is the parent. *)
Definition wiring_on (t : State) (c : Ctrl) (r : IRouter) (e : Ctrl * Ctrl)
    : list Call :=
  (if decide (e.1 = c) then parentMiddleware_calls t e.2 r else [])
  ++ (if decide (e.2 = c) then
        match JsMap.get e.1 (routerMap t), JsMap.get e.1 (controllerMap t) with
        | Some childRouter, Some childSpec =>
            [Mount r (root childSpec) childRouter]
        | _, _ => []
        end
      else []).

(* ===================================================================== *)
(** * Properties *)

(** Closed decidable facts, by evaluation. *)
Ltac by_compute := apply (bool_decide_unpack _); vm_compute; exact I.

(** ** Lists *)

Lemma filter_none {A} (P : A -> Prop) `{forall x, Decision (P x)} (l : list A) :
  Forall (fun x => ~ P x) l -> filter P l = [].
Proof.
  induction 1 as [|x l Hx _ IH]; [done|]. by rewrite filter_cons_False.
Qed.

Lemma filter_all {A} (P : A -> Prop) `{forall x, Decision (P x)} (l : list A) :
  Forall P l -> filter P l = l.
Proof.
  induction 1 as [|x l Hx _ IH]; [done|]. by rewrite filter_cons_True, IH.
Qed.

(** ** Tables *)

Section jsmap_facts.
Context {K V : Type} `{EqDecision K}.
Implicit Types (m : JsMap.t K V) (k : K) (v : V).

Lemma get_set_eq m k v : JsMap.get k (JsMap.set k v m) = Some v.
Proof.
  induction m as [|[k' v'] m IH]; simpl.
  - by rewrite decide_True.
  - destruct (decide (k = k')) as [->|Hne]; simpl.
    + by rewrite decide_True.
    + by rewrite decide_False.
Qed.

Lemma get_set_ne m k k' v :
  k <> k' -> JsMap.get k' (JsMap.set k v m) = JsMap.get k' m.
Proof.
  intros Hne. induction m as [|[k0 v0] m IH]; simpl.
  - by rewrite decide_False.
  - destruct (decide (k = k0)) as [->|Hne0]; simpl.
    + by rewrite !decide_False.
    + by rewrite IH.
Qed.

Lemma set_set m k v1 v2 :
  JsMap.set k v2 (JsMap.set k v1 m) = JsMap.set k v2 m.
Proof.
  induction m as [|[k' v'] m IH]; simpl.
  - by rewrite decide_True.
  - destruct (decide (k = k')) as [->|Hne]; simpl.
    + by rewrite decide_True.
    + by rewrite decide_False, IH.
Qed.

Lemma set_get_id m k v : JsMap.get k m = Some v -> JsMap.set k v m = m.
Proof.
  induction m as [|[k' v'] m IH]; simpl; [done|].
  destruct (decide (k = k')) as [->|Hne]; intros Hg.
  - by inversion Hg.
  - by rewrite IH.
Qed.

Lemma keys_set m k v :
  JsMap.keys (JsMap.set k v m)
  = if JsMap.has k m then JsMap.keys m else JsMap.keys m ++ [k].
Proof.
  unfold JsMap.has, JsMap.keys.
  induction m as [|[k' v'] m IH]; [done|].
  cbn [JsMap.set JsMap.get].
  destruct (decide (k = k')) as [->|Hne]; [done|].
  rewrite !fmap_cons, IH. by destruct (JsMap.get k m).
Qed.

Lemma get_None_keys m k : JsMap.get k m = None <-> k ∉ JsMap.keys m.
Proof.
  unfold JsMap.keys.
  induction m as [|[k' v'] m IH]; simpl.
  - split; [intros _; apply not_elem_of_nil | done].
  - rewrite not_elem_of_cons.
    destruct (decide (k = k')) as [->|Hne]; [|rewrite IH]; [|tauto].
    split; [done | by intros [? _]].
Qed.

Lemma get_Some_elem m k v : JsMap.get k m = Some v -> (k, v) ∈ m.
Proof.
  induction m as [|[k' v'] m IH]; simpl; [done|].
  destruct (decide (k = k')) as [->|Hne]; intros Hg.
  - inversion Hg. apply elem_of_cons. by left.
  - apply elem_of_cons. right. auto.
Qed.

Lemma elem_get_wf m k v : JsMap.wf m -> (k, v) ∈ m -> JsMap.get k m = Some v.
Proof.
  unfold JsMap.wf, JsMap.keys.
  induction m as [|[k' v'] m IH]; simpl; intros Hwf Hin.
  - by apply elem_of_nil in Hin.
  - apply NoDup_cons in Hwf as [Hnotin Hwf].
    apply elem_of_cons in Hin as [Heq|Hin].
    + inversion Heq; subst. by rewrite decide_True.
    + destruct (decide (k = k')) as [->|Hne]; [|by apply IH].
      exfalso. apply Hnotin. apply list_elem_of_fmap. by exists (k', v).
Qed.

Lemma wf_set m k v : JsMap.wf m -> JsMap.wf (JsMap.set k v m).
Proof.
  unfold JsMap.wf. intros Hwf. rewrite keys_set.
  unfold JsMap.has. destruct (JsMap.get k m) eqn:Hg; [done|].
  apply NoDup_app. split_and!; [done| |apply NoDup_singleton].
  intros x Hx Hx'. apply list_elem_of_singleton in Hx' as ->.
  by apply get_None_keys in Hg.
Qed.

Lemma wf_empty : JsMap.wf (JsMap.empty : JsMap.t K V).
Proof. apply NoDup_nil_2. Qed.

Lemma get_remove_eq m k : JsMap.get k (JsMap.remove k m) = None.
Proof.
  induction m as [|[k' v'] m IH]; simpl; [done|].
  destruct (decide (k = k')) as [->|Hne]; simpl; [done|].
  by rewrite decide_False.
Qed.

Lemma get_remove_ne m k k' :
  k <> k' -> JsMap.get k' (JsMap.remove k m) = JsMap.get k' m.
Proof.
  intros Hne. induction m as [|[k0 v0] m IH]; simpl; [done|].
  destruct (decide (k = k0)) as [->|Hne0]; simpl.
  - by rewrite decide_False.
  - by rewrite IH.
Qed.
End jsmap_facts.

(** ** Plain objects *)

Section object_facts.
Context {V : Type}.
Implicit Types (o : JsMap.t string V) (x : N * (string * V)).

Lemma insert_indexed_perm x (l : list (N * (string * V))) :
  insert_indexed x l ≡ₚ x :: l.
Proof.
  induction l as [|y l IH]; [done|]. cbn [insert_indexed].
  destruct (x.1 <=? y.1)%N; [done|].
  rewrite IH. apply Permutation_swap.
Qed.

Lemma sort_indexed_perm (l : list (N * (string * V))) : sort_indexed l ≡ₚ l.
Proof.
  induction l as [|x l IH]; [done|]. cbn [sort_indexed foldr].
  rewrite insert_indexed_perm. by apply Permutation_skip.
Qed.

Lemma ownEntries_cons_perm (e : string * V) o :
  ownEntries (e :: o) ≡ₚ e :: ownEntries o.
Proof.
  unfold ownEntries, indexed_entries, named_entries.
  cbn [omap list_omap]. destruct (array_index e.1) as [i|] eqn:Hi.
  - cbn [fmap option_fmap option_map]. rewrite filter_cons_False by congruence.
    cbn [sort_indexed foldr].
    rewrite insert_indexed_perm. by rewrite fmap_cons.
  - cbn [fmap option_fmap option_map]. rewrite filter_cons_True by done.
    by rewrite <- Permutation_middle.
Qed.

(** Enumeration visits each own property once. *)
Lemma ownEntries_perm o : ownEntries o ≡ₚ o.
Proof.
  induction o as [|e o IH]; [done|].
  rewrite ownEntries_cons_perm. by apply Permutation_skip.
Qed.

Lemma elem_of_ownEntries o (e : string * V) : e ∈ ownEntries o <-> e ∈ o.
Proof. by rewrite ownEntries_perm. Qed.

Lemma wf_ownEntries o : JsMap.wf o -> JsMap.wf (ownEntries o).
Proof. unfold JsMap.wf, JsMap.keys. by rewrite ownEntries_perm. Qed.

Lemma get_ownEntries o k :
  JsMap.wf o -> JsMap.get k (ownEntries o) = JsMap.get k o.
Proof.
  intros Hwf. destruct (JsMap.get k o) as [v|] eqn:Hg.
  - apply elem_get_wf; [by apply wf_ownEntries|].
    apply elem_of_ownEntries. by apply get_Some_elem.
  - apply get_None_keys. apply get_None_keys in Hg.
    unfold JsMap.keys in *. by rewrite ownEntries_perm.
Qed.

Lemma ownEntries_nil_iff o : ownEntries o = [] <-> o = [].
Proof.
  split; [|by intros ->].
  intros Hnil. apply Permutation_nil_r. by rewrite <- Hnil, ownEntries_perm.
Qed.

Lemma indexed_entries_app o1 o2 :
  indexed_entries (o1 ++ o2) = indexed_entries o1 ++ indexed_entries o2.
Proof. unfold indexed_entries. apply omap_app. Qed.

Lemma named_entries_app o1 o2 :
  named_entries (o1 ++ o2) = named_entries o1 ++ named_entries o2.
Proof. unfold named_entries. apply filter_app. Qed.

Lemma indexed_entries_named (e : string * V) o :
  array_index e.1 = None -> indexed_entries (e :: o) = indexed_entries o.
Proof.
  intros Hn. unfold indexed_entries. cbn [omap list_omap]. by rewrite Hn.
Qed.

Lemma named_entries_named (e : string * V) o :
  array_index e.1 = None -> named_entries (e :: o) = e :: named_entries o.
Proof. intros Hn. unfold named_entries. by rewrite filter_cons_True. Qed.

(** Without array indices among the names, enumeration follows the order
    of creation. *)
Lemma ownEntries_named o :
  Forall (fun e => array_index e.1 = None) o -> ownEntries o = o.
Proof.
  intros Hall. unfold ownEntries.
  assert (indexed_entries o = []) as ->.
  { induction Hall as [|e o He _ IH]; [done|].
    by rewrite indexed_entries_named. }
  unfold named_entries. by rewrite filter_all.
Qed.

(** A property whose name is not an array index keeps its place among
    those that are not, whatever array indices are around it. *)
Lemma ownEntries_named_middle o1 (e : string * V) o2 :
  array_index e.1 = None ->
  ownEntries (o1 ++ e :: o2)
  = (sort_indexed (indexed_entries (o1 ++ o2))).*2
    ++ named_entries o1 ++ e :: named_entries o2.
Proof.
  intros Hn. unfold ownEntries.
  rewrite !indexed_entries_app, indexed_entries_named by done.
  by rewrite named_entries_app, named_entries_named.
Qed.

Lemma getProperty_own o k v : JsMap.get k o = Some v -> getProperty k o = Own v.
Proof. unfold getProperty. by intros ->. Qed.

Lemma getProperty_undefined o k :
  JsMap.get k o = None -> k ∉ Object_prototype -> getProperty k o = Undefined.
Proof. unfold getProperty. intros -> Hk. by rewrite bool_decide_eq_false_2. Qed.

Lemma getProperty_inherited o k :
  JsMap.get k o = None -> k ∈ Object_prototype -> getProperty k o = Inherited.
Proof. unfold getProperty. intros -> Hk. by rewrite bool_decide_eq_true_2. Qed.
End object_facts.

(** ** What each method does, as an equation *)

Lemma emit_nil s : emit [] s = s.
Proof. destruct s. unfold emit. simpl. by rewrite app_nil_r. Qed.

Lemma emit_emit a b s : emit b (emit a s) = emit (a ++ b) s.
Proof. unfold emit. simpl. by rewrite app_assoc. Qed.

Lemma forOf_app {A} (l1 l2 : list A) (body : A -> M unit) s :
  forOf (l1 ++ l2) body s
  = match forOf l1 body s with
    | (Ok _, s') => forOf l2 body s'
    | (Throw e, s') => (Throw e, s')
    end.
Proof.
  revert s. induction l1 as [|x l1 IH]; intros s; simpl; [done|].
  unfold bind. destruct (body x s) as [[[]|e] s']; [apply IH | done].
Qed.

Lemma processRouteMiddleware_run router path handler s :
  processRouteMiddleware router path
    (JsMap.get handler (routeMiddlewareMap s)) s
  = (Ok tt, emit (routeMiddleware_calls s router path handler) s).
Proof.
  unfold processRouteMiddleware, routeMiddleware_calls.
  destruct (JsMap.get handler (routeMiddlewareMap s)) as [[|h mw]|];
    unfold ret, host, modify; by rewrite ?emit_nil.
Qed.

Lemma processHttpMethodSpec_run router path handler httpMethod s :
  processHttpMethodSpec router path handler httpMethod s
  = (Ok tt, emit (handler_calls s router httpMethod (path, handler)) s).
Proof.
  unfold processHttpMethodSpec, bind, gets.
  rewrite processRouteMiddleware_run.
  unfold host, modify, handler_calls. by rewrite emit_emit.
Qed.

Lemma processRouteSpec_run router controller httpMethod httpMethodSpec s :
  processRouteSpec router controller httpMethod httpMethodSpec s
  = (Ok tt, emit (method_calls s router (httpMethod, httpMethodSpec)) s).
Proof.
  unfold processRouteSpec, method_calls. simpl.
  revert s. induction httpMethodSpec as [|[p h] l IH]; intros s; simpl.
  - unfold ret. by rewrite emit_nil.
  - unfold bind. rewrite processHttpMethodSpec_run, IH, emit_emit. done.
Qed.

Lemma forOf_routeSpec_run router controller (routeSpec : RouteSpec) s :
  forOf routeSpec (fun e => processRouteSpec router controller e.1 e.2) s
  = (Ok tt, emit (routes_calls s router routeSpec) s).
Proof.
  unfold routes_calls.
  revert s. induction routeSpec as [|[m l] rs IH]; intros s; simpl.
  - unfold ret. by rewrite emit_nil.
  - unfold bind. rewrite processRouteSpec_run, IH, emit_emit. done.
Qed.

Lemma processControllerMiddleware_run router controller s :
  processControllerMiddleware router controller s
  = (Ok tt, emit (controllerMiddleware_calls s router controller) s).
Proof.
  unfold processControllerMiddleware, controllerMiddleware_calls, bind, gets.
  destruct (JsMap.get controller (controllerMiddlewareMap s));
    unfold ret, host, modify; by rewrite ?emit_nil.
Qed.

Lemma processController_run app c spec s :
  processController app c spec s = (Ok tt, after_controller app c spec s).
Proof.
  unfold processController, after_controller, assembles, controller_calls,
    bind at 1, gets at 1.
  destruct (JsMap.get c (routeMap s)) as [[|e rs]|] eqn:Hget; try done.
  cbn [isEmpty]. unfold bind at 1, createRouter.
  unfold bind at 1. rewrite processControllerMiddleware_run.
  unfold bind at 1. rewrite forOf_routeSpec_run.
  unfold bind, modify, gets, assembly_calls, mount_calls. simpl.
  destruct (JsMap.has c (parentMap s)); unfold ret, host, modify, emit; simpl;
    f_equal; f_equal; rewrite <- ?app_assoc; simpl; rewrite ?app_nil_r; done.
Qed.

(** ** Pass 1 as a whole *)

Lemma same_input_refl s : same_input s s.
Proof. by repeat split. Qed.

Lemma same_input_after_controller app c spec s :
  same_input s (after_controller app c spec s).
Proof.
  unfold after_controller. destruct (assembles c s); by repeat split.
Qed.

Lemma same_input_trans s1 s2 s3 :
  same_input s1 s2 -> same_input s2 s3 -> same_input s1 s3.
Proof.
  unfold same_input. intros (?&?&?&?&?) (?&?&?&?&?).
  repeat split; congruence.
Qed.

Lemma same_input_assemble app l s : same_input s (assemble app l s).
Proof.
  revert s. induction l as [|e l IH]; intros s; simpl.
  - apply same_input_refl.
  - eapply same_input_trans; [apply same_input_after_controller | apply IH].
Qed.

Lemma assembles_same s s' c : same_input s s' -> assembles c s' = assembles c s.
Proof. unfold assembles. by intros (<-&_). Qed.

Lemma controller_calls_same s s' app c spec n :
  same_input s s' ->
  controller_calls app c spec n s' = controller_calls app c spec n s.
Proof.
  intros (Hr&_&Hcm&Hrm&Hp).
  unfold controller_calls, assembly_calls, controllerMiddleware_calls,
    routes_calls, method_calls, handler_calls, routeMiddleware_calls,
    mount_calls.
  by rewrite Hr, Hcm, Hrm, Hp.
Qed.

Lemma forOf_processController_run app l s :
  forOf l (fun e => processController app e.1 e.2) s
  = (Ok tt, assemble app l s).
Proof.
  revert s. induction l as [|e l IH]; intros s; simpl; [done|].
  unfold bind. by rewrite processController_run, IH.
Qed.

Lemma pass1_run app s :
  pass1 app s = (Ok tt, assemble app (controllerMap s) s).
Proof. unfold pass1, bind, gets. apply forOf_processController_run. Qed.

Lemma calls_after_controller app c spec s :
  calls (after_controller app c spec s)
  = calls s ++ controller_calls app c spec (created s) s.
Proof.
  unfold after_controller, controller_calls, assembles.
  destruct (JsMap.get c (routeMap s)) as [[|e rs]|]; simpl;
    by rewrite ?app_nil_r.
Qed.

Lemma created_after_controller app c spec s :
  created (after_controller app c spec s)
  = if assembles c s then S (created s) else created s.
Proof. unfold after_controller. by destruct (assembles c s). Qed.

Lemma calls_assemble app l s s0 :
  same_input s0 s ->
  calls (assemble app l s) = calls s ++ pass1_calls app l (created s) s0.
Proof.
  revert s. induction l as [|e l IH]; intros s Hs; simpl.
  - by rewrite app_nil_r.
  - rewrite IH
      by (eapply same_input_trans; [done | apply same_input_after_controller]).
    rewrite calls_after_controller, created_after_controller.
    rewrite (controller_calls_same s0 s), (assembles_same s0 s) by done.
    by rewrite app_assoc.
Qed.

(** ** Which routers the calls of Pass 1 involve *)

Lemma serials_within_app lo hi cs1 cs2 :
  serials_within lo hi cs1 -> serials_within lo hi cs2 ->
  serials_within lo hi (cs1 ++ cs2).
Proof. apply Forall_app_2. Qed.

Lemma serials_within_weaken lo hi lo' hi' cs :
  serials_within lo hi cs ->
  lo' <= lo ->
  match hi', hi with
  | Some h', Some h => h <= h'
  | Some _, None => False
  | None, _ => True
  end ->
  serials_within lo' hi' cs.
Proof.
  intros Hcs Hlo Hhi. eapply Forall_impl; [exact Hcs|].
  intros c Hc j Hj. destruct (Hc j Hj) as [? ?]. split; [lia|].
  destruct hi', hi; try done; lia.
Qed.

Lemma serials_within_stack lo hi cs n :
  serials_within lo hi cs ->
  (n < lo \/ match hi with Some h => h <= n | None => False end) ->
  Forall (fun c => Created n ∉ routers_of c) cs.
Proof.
  intros Hcs Hn. eapply Forall_impl; [exact Hcs|].
  intros c Hc Hin. destruct (Hc n Hin) as [? ?].
  destruct Hn as [?|Hn]; [lia|]. destruct hi; [lia|done].
Qed.

Lemma serials_controller_calls a c spec n s :
  serials_within n (Some (S n)) (controller_calls (External a) c spec n s).
Proof.
  assert (H1 : forall j, Created j ∈ [Created n] -> n <= j < S n).
  { intros j Hj. apply list_elem_of_singleton in Hj. inversion Hj; lia. }
  assert (H2 : forall p j,
            Created j ∈ routers_of (Mount (External a) p (Created n)) ->
            n <= j < S n).
  { simpl. intros _ j Hj. apply elem_of_cons in Hj as [Hj|Hj]; [done|].
    by apply H1. }
  unfold controller_calls, serials_within.
  destruct (JsMap.get c (routeMap s)) as [[|e rs]|]; try apply Forall_nil_2.
  apply Forall_cons. split; [exact H1|].
  unfold assembly_calls. rewrite !Forall_app. split_and!.
  - unfold controllerMiddleware_calls.
    destruct (JsMap.get c (controllerMiddlewareMap s));
      [apply Forall_singleton; exact H1 | apply Forall_nil_2].
  - unfold routes_calls. apply Forall_flat_map, Forall_forall.
    intros [m hms] _. unfold method_calls.
    apply Forall_flat_map, Forall_forall. intros [p h] _.
    unfold handler_calls, routeMiddleware_calls. simpl.
    apply Forall_app. split; [|apply Forall_singleton; exact H1].
    destruct (JsMap.get h (routeMiddlewareMap s)) as [[|x mw]|];
      [apply Forall_nil_2 | apply Forall_singleton; exact H1
      | apply Forall_nil_2].
  - unfold mount_calls. destruct (JsMap.has c (parentMap s));
      [apply Forall_nil_2 | apply Forall_singleton, H2].
Qed.

Lemma serials_pass1_calls a l n s :
  serials_within n None (pass1_calls (External a) l n s).
Proof.
  revert n. induction l as [|e l IH]; intros n; simpl.
  - apply Forall_nil_2.
  - apply serials_within_app.
    + eapply serials_within_weaken;
        [apply serials_controller_calls | lia | done].
    + eapply serials_within_weaken; [apply IH | | done].
      destruct (assembles e.1 s); lia.
Qed.

Lemma controller_calls_skipped app c spec n s :
  assembles c s = false -> controller_calls app c spec n s = [].
Proof.
  unfold assembles, controller_calls.
  by destruct (JsMap.get c (routeMap s)) as [[|e rs]|].
Qed.

Lemma routerMap_after_controller app c spec s c' :
  JsMap.get c' (routerMap (after_controller app c spec s))
  = if bool_decide (c' = c) && assembles c s then Some (Created (created s))
    else JsMap.get c' (routerMap s).
Proof.
  unfold after_controller.
  destruct (assembles c s); simpl; [|by rewrite andb_false_r].
  case_bool_decide as Hc; simpl.
  - subst. apply get_set_eq.
  - by apply get_set_ne.
Qed.

Lemma routerMap_assemble_other app l s c :
  c ∉ l.*1 ->
  JsMap.get c (routerMap (assemble app l s)) = JsMap.get c (routerMap s).
Proof.
  revert s. induction l as [|e l IH]; intros s Hc; simpl; [done|].
  rewrite fmap_cons in Hc. apply not_elem_of_cons in Hc as [Hne Hc].
  rewrite IH by done. rewrite routerMap_after_controller.
  by rewrite bool_decide_false.
Qed.

(** The calls of Pass 1 split around those made for one controller: what
    comes before involves older routers, what comes after newer ones. *)
Lemma pass1_calls_split a l c spec s0 s :
  NoDup l.*1 -> (c, spec) ∈ l -> assembles c s0 = true -> same_input s0 s ->
  exists n before after,
    created s <= n
    /\ JsMap.get c (routerMap (assemble (External a) l s)) = Some (Created n)
    /\ pass1_calls (External a) l (created s) s0
       = before ++ controller_calls (External a) c spec n s0 ++ after
    /\ serials_within (created s) (Some n) before
    /\ serials_within (S n) None after.
Proof.
  intros Hnd Hin Hasm. revert s Hnd Hin.
  induction l as [|e l IH]; intros s Hnd Hin Hs.
  { by apply elem_of_nil in Hin. }
  rewrite fmap_cons in Hnd. apply NoDup_cons in Hnd as [Hfresh Hnd].
  apply elem_of_cons in Hin as [<-|Hin].
  - exists (created s), [],
      (pass1_calls (External a) l (S (created s)) s0).
    simpl in *. rewrite Hasm. split_and!; try done.
    + rewrite routerMap_assemble_other by done.
      rewrite routerMap_after_controller, bool_decide_true by done.
      by rewrite (assembles_same s0 s), Hasm.
    + apply Forall_nil_2.
    + apply serials_pass1_calls.
  - destruct (IH (after_controller (External a) e.1 e.2 s) Hnd Hin)
      as (n & before & after & Hn & Hget & Hsplit & Hb & Ha).
    { eapply same_input_trans; [done | apply same_input_after_controller]. }
    rewrite created_after_controller, (assembles_same s0 s) in * by done.
    exists n, (controller_calls (External a) e.1 e.2 (created s) s0 ++ before),
      after.
    simpl. split_and!; try done.
    + destruct (assembles e.1 s0); lia.
    + by rewrite Hsplit, <- app_assoc.
    + apply serials_within_app.
      * destruct (assembles e.1 s0) eqn:He.
        -- eapply serials_within_weaken;
             [apply serials_controller_calls | lia | simpl; lia].
        -- rewrite controller_calls_skipped by done. apply Forall_nil_2.
      * eapply serials_within_weaken; [exact Hb | | simpl; lia].
        destruct (assembles e.1 s0); lia.
Qed.

Lemma stack_of_unrelated r cs :
  Forall (fun c => r ∉ routers_of c) cs -> stack_of r cs = [].
Proof.
  intros Hcs. apply filter_none. eapply Forall_impl; [exact Hcs|].
  intros c Hc Hr. apply Hc.
  destruct c; simpl in *; try done; inversion Hr; subst;
    apply elem_of_cons; by left.
Qed.

Lemma mount_of_unrelated r cs :
  Forall (fun c => r ∉ routers_of c) cs -> filter (is_mount_of r) cs = [].
Proof.
  intros Hcs. apply filter_none. eapply Forall_impl; [exact Hcs|].
  intros c Hc Hr. apply Hc.
  destruct c; simpl in *; try done; subst.
  apply elem_of_cons; right. apply elem_of_cons; by left.
Qed.

(** Pass 1 raises no error of its own; a controller with routes gets a
    new router, and the calls made for it stand between calls that do not
    involve that router. *)
Lemma pass1_controller a s c spec :
  JsMap.wf (controllerMap s) ->
  JsMap.get c (controllerMap s) = Some spec ->
  assembles c s = true ->
  exists n before after,
    let s1 := assemble (External a) (controllerMap s) s in
    pass1 (External a) s = (Ok tt, s1)
    /\ JsMap.get c (routerMap s1) = Some (Created n)
    /\ calls s1
       = calls s ++ before ++ controller_calls (External a) c spec n s ++ after
    /\ Forall (fun call => Created n ∉ routers_of call) before
    /\ Forall (fun call => Created n ∉ routers_of call) after.
Proof.
  intros Hwf Hget Hasm.
  destruct (pass1_calls_split a (controllerMap s) c spec s s)
    as (n & before & after & Hn & Hr & Hsplit & Hb & Ha);
    [done | by apply get_Some_elem | done | apply same_input_refl |].
  exists n, before, after. simpl. split_and!.
  - apply pass1_run.
  - done.
  - by rewrite (calls_assemble _ _ s s), Hsplit by apply same_input_refl.
  - eapply serials_within_stack; [exact Hb | right; simpl; lia].
  - eapply serials_within_stack; [exact Ha | left; lia].
Qed.

Lemma method_calls_Forall (P : Call -> Prop) s r e :
  (forall p mw, P (UsePath r p mw)) -> (forall m p h, P (Verb r m p h)) ->
  Forall P (method_calls s r e).
Proof.
  intros Hu Hv. unfold method_calls.
  apply Forall_flat_map, Forall_forall. intros [p h] _.
  unfold handler_calls, routeMiddleware_calls. simpl.
  apply Forall_app. split; [|by apply Forall_singleton].
  destruct (JsMap.get h (routeMiddlewareMap s)) as [[|x mw]|];
    [apply Forall_nil_2 | by apply Forall_singleton | apply Forall_nil_2].
Qed.

Lemma routes_calls_Forall (P : Call -> Prop) s r (routeSpec : RouteSpec) :
  (forall p mw, P (UsePath r p mw)) -> (forall m p h, P (Verb r m p h)) ->
  Forall P (routes_calls s r routeSpec).
Proof.
  intros Hu Hv. unfold routes_calls. apply Forall_flat_map, Forall_forall.
  intros e _. by apply method_calls_Forall.
Qed.

(** On the new router Pass 1 registers the controller middleware, then
    the routes; the mount is a call on the application. *)
Lemma stack_of_controller_calls a c spec n s routeSpec :
  JsMap.get c (routeMap s) = Some routeSpec ->
  assembles c s = true ->
  stack_of (Created n) (controller_calls (External a) c spec n s)
  = controllerMiddleware_calls s (Created n) c
    ++ routes_calls s (Created n) (ownEntries routeSpec).
Proof.
  unfold assembles, controller_calls, stack_of. intros ->.
  destruct routeSpec as [|e rs]; [done|]. intros _.
  rewrite filter_cons_False by done.
  unfold assembly_calls. rewrite !filter_app.
  rewrite (filter_all _ (controllerMiddleware_calls _ _ _)).
  2:{ unfold controllerMiddleware_calls.
      destruct (JsMap.get c (controllerMiddlewareMap s));
        [by apply Forall_singleton | apply Forall_nil_2]. }
  rewrite (filter_all _ (routes_calls _ _ _))
    by (by apply routes_calls_Forall).
  rewrite (filter_none _ (mount_calls _ _ _ _ _)); [by rewrite app_nil_r|].
  unfold mount_calls. destruct (JsMap.has c (parentMap s));
    [apply Forall_nil_2 | by apply Forall_singleton].
Qed.

Lemma routes_calls_at s r (routeSpec : RouteSpec) m hms p h :
  (m, hms) ∈ routeSpec -> (p, h) ∈ hms ->
  exists pre post,
    routes_calls s r routeSpec
    = pre ++ routeMiddleware_calls s r p h ++ [Verb r m p h] ++ post
    /\ Forall (fun call => is_use call = false) (pre ++ post).
Proof.
  intros Hm Hp.
  apply list_elem_of_split in Hm as (rs1 & rs2 & ->).
  apply list_elem_of_split in Hp as (l1 & l2 & ->).
  exists (routes_calls s r rs1 ++ method_calls s r (m, l1)),
    (method_calls s r (m, l2) ++ routes_calls s r rs2).
  split.
  - unfold routes_calls, method_calls, handler_calls. simpl.
    rewrite !flat_map_app. simpl. rewrite !flat_map_app. simpl.
    by rewrite <- !app_assoc.
  - rewrite !Forall_app. split_and!;
      first [by apply routes_calls_Forall | by apply method_calls_Forall].
Qed.

Lemma mount_of_controller_calls a c spec n s :
  assembles c s = true ->
  filter (is_mount_of (Created n)) (controller_calls (External a) c spec n s)
  = if JsMap.has c (parentMap s) then []
    else [Mount (External a) (root spec) (Created n)].
Proof.
  unfold assembles, controller_calls.
  destruct (JsMap.get c (routeMap s)) as [[|e rs]|]; try done. intros _.
  rewrite filter_cons_False by (by intros []).
  unfold assembly_calls. rewrite !filter_app.
  rewrite (filter_none _ (controllerMiddleware_calls _ _ _)).
  2:{ unfold controllerMiddleware_calls.
      destruct (JsMap.get c (controllerMiddlewareMap s));
        [apply Forall_singleton; by intros [] | apply Forall_nil_2]. }
  rewrite (filter_none _ (routes_calls _ _ _))
    by (apply routes_calls_Forall; intros; by intros []).
  unfold mount_calls. destruct (JsMap.has c (parentMap s)); [done|].
  by rewrite filter_cons_True.
Qed.

(** ** Pass 2 *)

Lemma same_registry_refl s : same_registry s s.
Proof. split; [apply same_input_refl | done]. Qed.

Lemma same_registry_emit cs s : same_registry s (emit cs s).
Proof. split; [by repeat split | done]. Qed.

Lemma same_registry_trans s1 s2 s3 :
  same_registry s1 s2 -> same_registry s2 s3 -> same_registry s1 s3.
Proof.
  intros (?&?&?) (?&?&?). split; [by eapply same_input_trans|].
  split; congruence.
Qed.

(** [processParents] only adds calls: the parent's middleware on the
    child's router when there is some, then the mount. *)
Lemma processParents_calls child parent s :
  exists cs,
    (processParents child parent s).2 = emit cs s
    /\ Forall (fun c => is_use c = true \/ is_mount c = true) cs.
Proof.
  unfold processParents, bind, gets, throw.
  destruct (JsMap.get parent (routerMap s)) as [pr|];
    [|exists []; by rewrite emit_nil].
  destruct (JsMap.get child (routerMap s)) as [cr|];
    [|exists []; by rewrite emit_nil].
  destruct (JsMap.get parent (controllerMiddlewareMap s)) as [[|x mw]|],
    (JsMap.get child (controllerMap s)) as [cs|];
    unfold ret, host, modify; simpl.
  all: try (eexists [_]; split;
            [reflexivity | apply Forall_singleton; simpl; tauto]).
  all: try (exists []; by rewrite emit_nil).
  eexists [_; _]. rewrite emit_emit. split; [reflexivity|].
  apply Forall_cons; split; [simpl; tauto|].
  apply Forall_singleton; simpl; tauto.
Qed.

Lemma forOf_wire_calls l s :
  exists cs,
    (forOf l wire s).2 = emit cs s
    /\ Forall (fun c => is_use c = true \/ is_mount c = true) cs.
Proof.
  revert s. induction l as [|[c p] l IH]; intros s; simpl.
  - exists []. by rewrite emit_nil.
  - unfold bind, wire at 1. simpl.
    destruct (processParents_calls c p s) as (cs & Hs & Hcs).
    destruct (processParents c p s) as [[[]|e] s']; simpl in Hs; subst s'.
    + destruct (IH (emit cs s)) as (cs' & Hs' & Hcs').
      exists (cs ++ cs'). rewrite Hs', emit_emit. split; [done|].
      by apply Forall_app.
    + by exists cs.
Qed.

Lemma processParents_throws_parent child parent s :
  JsMap.get parent (routerMap s) = None ->
  processParents child parent s
  = (Throw (ParentControllerError child parent), s).
Proof. unfold processParents, bind, gets. by intros ->. Qed.

Lemma processParents_throws_child child parent s :
  is_Some (JsMap.get parent (routerMap s)) ->
  JsMap.get child (routerMap s) = None ->
  processParents child parent s
  = (Throw (UnregisteredControllerError child), s).
Proof. unfold processParents, bind, gets. by intros [pr ->] ->. Qed.

Lemma processParents_wires child parent s pr cr cspec :
  JsMap.get parent (routerMap s) = Some pr ->
  JsMap.get child (routerMap s) = Some cr ->
  JsMap.get child (controllerMap s) = Some cspec ->
  processParents child parent s
  = (Ok tt,
     emit (parentMiddleware_calls s parent cr
           ++ [Mount pr (root cspec) cr]) s).
Proof.
  unfold processParents, bind, gets, parentMiddleware_calls.
  intros -> -> ->.
  destruct (JsMap.get parent (controllerMiddlewareMap s)) as [[|x mw]|];
    unfold ret, host, modify; by rewrite ?emit_emit.
Qed.

Lemma applyRoutes_run app s :
  applyRoutes app s
  = forOf (parentMap s) wire (assemble app (controllerMap s) s).
Proof.
  unfold applyRoutes, bind at 1. rewrite pass1_run.
  unfold pass2, bind, gets.
  by destruct (same_input_assemble app (controllerMap s) s) as (_&_&_&_&<-).
Qed.

Lemma forOf_wire_registry l s : same_registry s (forOf l wire s).2.
Proof.
  destruct (forOf_wire_calls l s) as (cs & -> & _). apply same_registry_emit.
Qed.

(** The second loop of [applyRoutes] only adds calls, after those of the
    first, and leaves the router table of the first. *)
Lemma applyRoutes_pass2 app s :
  exists wiring,
    calls (exec (applyRoutes app) s) = calls (exec (pass1 app) s) ++ wiring
    /\ routerMap (exec (applyRoutes app) s) = routerMap (exec (pass1 app) s)
    /\ Forall (fun c => is_use c = true \/ is_mount c = true) wiring.
Proof.
  unfold exec. rewrite applyRoutes_run, pass1_run. simpl.
  destruct (forOf_wire_calls (parentMap s)
              (assemble app (controllerMap s) s)) as (cs & -> & Hcs).
  by exists cs.
Qed.

(** C2: on the router that [applyRoutes] builds for a controller, the
    calls of Pass 1 are, in this order: the controller middleware (global
    to the router) if the controller has any; then the routes, each as its
    route middleware under the route's path (whatever the method)
    immediately followed by the handler for its method and path.  No
    other call of Pass 1 on the router is a global middleware
    registration.  The calls of Pass 2 all come after these. *)
Theorem C2_registration_order a s c spec routeSpec m hms p h :
  JsMap.wf (controllerMap s) ->
  JsMap.get c (controllerMap s) = Some spec ->
  JsMap.get c (routeMap s) = Some routeSpec ->
  (m, hms) ∈ routeSpec ->
  (p, h) ∈ hms ->
  exists r pass1_emitted pass2_emitted pre post,
    JsMap.get c (routerMap (exec (applyRoutes (External a)) s)) = Some r
    /\ calls (exec (pass1 (External a)) s) = calls s ++ pass1_emitted
    /\ calls (exec (applyRoutes (External a)) s)
       = calls s ++ pass1_emitted ++ pass2_emitted
    /\ stack_of r pass1_emitted
       = match JsMap.get c (controllerMiddlewareMap s) with
         | Some mw => [Use r mw]
         | None => []
         end
         ++ pre
         ++ match JsMap.get h (routeMiddlewareMap s) with
            | Some ((_ :: _) as mw) => [UsePath r p mw]
            | _ => []
            end
         ++ [Verb r m p h] ++ post
    /\ Forall (fun call => is_use call = false) (pre ++ post).
Proof.
  intros Hwf Hspec Hroutes Hm Hp.
  assert (Hasm : assembles c s = true).
  { unfold assembles. rewrite Hroutes. destruct routeSpec; [|done].
    by apply elem_of_nil in Hm. }
  destruct (pass1_controller a s c spec Hwf Hspec Hasm)
    as (n & before & after & Hrun & Hr & Hcalls & Hb & Ha).
  destruct (routes_calls_at s (Created n) (ownEntries routeSpec) m hms p h)
    as (pre & post & Hsplit & Huse); [by apply elem_of_ownEntries | done |].
  destruct (applyRoutes_pass2 (External a) s) as (wiring & Hw & Hrm & _).
  exists (Created n),
    (before ++ controller_calls (External a) c spec n s ++ after),
    wiring, pre, post.
  rewrite Hw, Hrm. unfold exec. rewrite Hrun. simpl.
  split_and!; [done | done | by rewrite Hcalls, <- !app_assoc | | done].
  unfold stack_of. rewrite !filter_app.
  fold (stack_of (Created n) before) (stack_of (Created n) after)
    (stack_of (Created n) (controller_calls (External a) c spec n s)).
  rewrite (stack_of_unrelated _ before), (stack_of_unrelated _ after) by done.
  rewrite (stack_of_controller_calls a c spec n s routeSpec) by done.
  rewrite Hsplit, app_nil_r. reflexivity.
Qed.

Lemma C2_registration_order_witness :
  exists r pass1_emitted pass2_emitted pre post,
    JsMap.get 1 (routerMap (exec (applyRoutes (External 0))
                              (exec demo initial))) = Some r
    /\ calls (exec (pass1 (External 0)) (exec demo initial))
       = calls (exec demo initial) ++ pass1_emitted
    /\ calls (exec (applyRoutes (External 0)) (exec demo initial))
       = calls (exec demo initial) ++ pass1_emitted ++ pass2_emitted
    /\ stack_of r pass1_emitted
       = [Use r [30]] ++ pre ++ [UsePath r (PathStr "/x") [20]]
         ++ [Verb r "get" (PathStr "/x") 10] ++ post
    /\ Forall (fun call => is_use call = false) (pre ++ post).
Proof.
  apply (C2_registration_order 0 (exec demo initial) 1
           (mkControllerSpec None (PathStr "/a"))
           [("get", [(PathStr "/x", 10)])] "get" [(PathStr "/x", 10)]
           (PathStr "/x") 10).
  - by_compute.
  - reflexivity.
  - reflexivity.
  - by_compute.
  - by_compute.
Defined.

(** C3: [applyRoutes] gives every controller that has routes a new router
    and records it.  When the parent table has no entry for the
    controller, Pass 1 mounts that router once, on the application, at
    the controller's root path; when it has one, Pass 1 does not mount
    it: its mount is left to Pass 2. *)
Theorem C3_root_mounted_child_deferred a s c spec :
  JsMap.wf (controllerMap s) ->
  JsMap.get c (controllerMap s) = Some spec ->
  assembles c s = true ->
  exists r pass1_emitted pass2_emitted,
    JsMap.get c (routerMap (exec (applyRoutes (External a)) s)) = Some r
    /\ calls (exec (pass1 (External a)) s) = calls s ++ pass1_emitted
    /\ calls (exec (applyRoutes (External a)) s)
       = calls s ++ pass1_emitted ++ pass2_emitted
    /\ CreateRouter r (opts spec) ∈ pass1_emitted
    /\ (JsMap.get c (parentMap s) = None ->
        filter (is_mount_of r) pass1_emitted
        = [Mount (External a) (root spec) r])
    /\ (is_Some (JsMap.get c (parentMap s)) ->
        filter (is_mount_of r) pass1_emitted = []).
Proof.
  intros Hwf Hspec Hasm.
  destruct (pass1_controller a s c spec Hwf Hspec Hasm)
    as (n & before & after & Hrun & Hr & Hcalls & Hb & Ha).
  destruct (applyRoutes_pass2 (External a) s) as (wiring & Hw & Hrm & _).
  exists (Created n),
    (before ++ controller_calls (External a) c spec n s ++ after), wiring.
  rewrite Hw, Hrm. unfold exec. rewrite Hrun. simpl.
  split_and!; [done | done | by rewrite Hcalls, <- !app_assoc | ..].
  - rewrite !elem_of_app. right; left.
    unfold controller_calls, assembles in *.
    destruct (JsMap.get c (routeMap s)) as [[|e rs]|]; try done.
    apply elem_of_cons; by left.
  - intros Hp. rewrite !filter_app.
    rewrite (mount_of_unrelated _ before), (mount_of_unrelated _ after)
      by done.
    rewrite mount_of_controller_calls by done.
    unfold JsMap.has. by rewrite Hp, app_nil_r.
  - intros [parent Hp]. rewrite !filter_app.
    rewrite (mount_of_unrelated _ before), (mount_of_unrelated _ after)
      by done.
    rewrite mount_of_controller_calls by done.
    unfold JsMap.has. by rewrite Hp.
Qed.

Lemma C3_root_mounted_child_deferred_witness :
  exists r pass1_emitted pass2_emitted,
    JsMap.get 2 (routerMap (exec (applyRoutes (External 0))
                              (exec demo initial))) = Some r
    /\ calls (exec (pass1 (External 0)) (exec demo initial))
       = calls (exec demo initial) ++ pass1_emitted
    /\ calls (exec (applyRoutes (External 0)) (exec demo initial))
       = calls (exec demo initial) ++ pass1_emitted ++ pass2_emitted
    /\ CreateRouter r None ∈ pass1_emitted
    /\ (JsMap.get 2 (parentMap (exec demo initial)) = None ->
        filter (is_mount_of r) pass1_emitted
        = [Mount (External 0) (PathStr "/b") r])
    /\ (is_Some (JsMap.get 2 (parentMap (exec demo initial))) ->
        filter (is_mount_of r) pass1_emitted = []).
Proof.
  apply (C3_root_mounted_child_deferred 0 (exec demo initial) 2
           (mkControllerSpec None (PathStr "/b"))).
  - by_compute.
  - reflexivity.
  - reflexivity.
Defined.

(** C4: in Pass 2, at the first pair of the parent table that cannot be
    wired, [applyRoutes] throws, and stops there: the state it leaves is
    the one reached after the earlier pairs, whatever the later pairs
    are.  A parent without an assembled router gives the
    parent-resolution error carrying the child (also when the child has
    no router either); a resolved parent with a child without router
    gives the unregistered-controller error carrying the child. *)
Theorem C4_wiring_errors_abort app s l1 child parent l2 s2 :
  parentMap s = l1 ++ (child, parent) :: l2 ->
  forOf l1 wire (exec (pass1 app) s) = (Ok tt, s2) ->
  (JsMap.get parent (routerMap (exec (pass1 app) s)) = None ->
   applyRoutes app s = (Throw (ParentControllerError child parent), s2))
  /\ (is_Some (JsMap.get parent (routerMap (exec (pass1 app) s))) ->
      JsMap.get child (routerMap (exec (pass1 app) s)) = None ->
      applyRoutes app s = (Throw (UnregisteredControllerError child), s2)).
Proof.
  intros Hpm Hl1. rewrite applyRoutes_run, Hpm, forOf_app.
  unfold exec in *. rewrite pass1_run in *. simpl in *.
  pose proof (forOf_wire_registry l1
                (assemble app (controllerMap s) s)) as (_ & Hrm & _).
  rewrite Hl1 in *. simpl in Hrm. rewrite Hrm. cbn [forOf]. unfold bind.
  change (wire (child, parent)) with (processParents child parent).
  split.
  - intros Hp. by rewrite processParents_throws_parent.
  - intros Hp Hc. by rewrite processParents_throws_child.
Qed.

Lemma C4_wiring_errors_abort_witness :
  applyRoutes (External 0) (exec orphans initial)
  = (Throw (ParentControllerError 3 9),
     exec (wire (5, 3)) (exec (pass1 (External 0)) (exec orphans initial)))
  /\ applyRoutes (External 0) (exec routeless_child initial)
     = (Throw (UnregisteredControllerError 7),
        exec (pass1 (External 0)) (exec routeless_child initial)).
Proof.
  split.
  - apply (C4_wiring_errors_abort (External 0) (exec orphans initial)
             [(5, 3)] 3 9 [(4, 3)]
             (exec (wire (5, 3))
                (exec (pass1 (External 0)) (exec orphans initial)))).
    + vm_compute; reflexivity.
    + vm_compute; reflexivity.
    + vm_compute; reflexivity.
  - apply (C4_wiring_errors_abort (External 0) (exec routeless_child initial)
             [] 7 6 []
             (exec (pass1 (External 0)) (exec routeless_child initial))).
    + vm_compute; reflexivity.
    + vm_compute; reflexivity.
    + vm_compute; by eexists.
    + vm_compute; reflexivity.
Defined.

Lemma controller_calls_verb a c spec n s routeSpec m hms p h :
  JsMap.get c (routeMap s) = Some routeSpec ->
  (m, hms) ∈ routeSpec -> (p, h) ∈ hms ->
  Verb (Created n) m p h ∈ controller_calls (External a) c spec n s.
Proof.
  intros Hget Hm Hp. unfold controller_calls. rewrite Hget.
  destruct routeSpec as [|e rs]; [by apply elem_of_nil in Hm|].
  destruct (routes_calls_at s (Created n) (ownEntries (e :: rs)) m hms p h)
    as (pre & post & Hsplit & _); [by apply elem_of_ownEntries | done |].
  apply elem_of_cons; right. unfold assembly_calls.
  rewrite Hsplit, !elem_of_app. right; left. right; right.
  left. apply elem_of_cons; by left.
Qed.

(** C5: when Pass 2 of [applyRoutes] reaches a pair whose two routers
    resolve, it adds, at the end of everything called so far, the
    parent's controller middleware on the child's router if the parent
    has a non-empty entry, and then the mount of the child's router on
    the parent's router at the child's root path.  Everything Pass 1
    called comes before; in particular every handler registration of the
    child on its router.  What follows comes from the later pairs. *)
Theorem C5_parent_middleware_appended a s l1 child parent l2 s2 pr cr cspec :
  JsMap.wf (controllerMap s) ->
  parentMap s = l1 ++ (child, parent) :: l2 ->
  forOf l1 wire (exec (pass1 (External a)) s) = (Ok tt, s2) ->
  JsMap.get parent (routerMap (exec (pass1 (External a)) s)) = Some pr ->
  JsMap.get child (routerMap (exec (pass1 (External a)) s)) = Some cr ->
  JsMap.get child (controllerMap s) = Some cspec ->
  exists pass1_emitted earlier later,
    calls (exec (pass1 (External a)) s) = calls s ++ pass1_emitted
    /\ calls s2 = calls s ++ pass1_emitted ++ earlier
    /\ calls (exec (applyRoutes (External a)) s)
       = calls s ++ pass1_emitted ++ earlier
         ++ match JsMap.get parent (controllerMiddlewareMap s) with
            | Some ((_ :: _) as mw) => [Use cr mw]
            | _ => []
            end
         ++ [Mount pr (root cspec) cr]
         ++ later
    /\ (forOf l2 wire
          (exec (processParents child parent) s2)).2
       = emit later (exec (processParents child parent) s2)
    /\ (forall routeSpec m hms p h,
          JsMap.get child (routeMap s) = Some routeSpec ->
          (m, hms) ∈ routeSpec -> (p, h) ∈ hms ->
          Verb cr m p h ∈ pass1_emitted).
Proof.
  intros Hwf Hpm Hl1 Hpr Hcr Hspec.
  unfold exec in *. rewrite applyRoutes_run, Hpm, forOf_app.
  rewrite pass1_run in *. simpl in *.
  set (s1 := assemble (External a) (controllerMap s) s) in *.
  destruct (forOf_wire_calls l1 s1) as (earlier & Hs2 & _).
  rewrite Hl1 in *. simpl in Hs2. subst s2.
  pose proof (same_input_assemble (External a) (controllerMap s) s)
    as (_ & Hcm & Hcmm & _ & _). fold s1 in Hcm, Hcmm.
  assert (Hcalls : calls s1 = calls s
            ++ pass1_calls (External a) (controllerMap s) (created s) s).
  { apply calls_assemble, same_input_refl. }
  cbn [forOf]. unfold bind at 1.
  change (wire (child, parent)) with (processParents child parent).
  rewrite (processParents_wires child parent (emit earlier s1) pr cr cspec);
    [| done | done | simpl; by rewrite <- Hcm].
  set (s3 := emit _ (emit earlier s1)).
  destruct (forOf_wire_calls l2 s3) as (later & Hlater & _).
  exists (pass1_calls (External a) (controllerMap s) (created s) s),
    earlier, later.
  rewrite Hlater. subst s3.
  unfold parentMiddleware_calls. simpl. rewrite <- Hcmm, Hcalls.
  split_and!; try done; try (by rewrite <- !app_assoc).
  { unfold parentMiddleware_calls in Hlater. simpl in Hlater.
    by rewrite <- Hcmm in Hlater. }
  intros routeSpec m hms p h Hroutes Hm Hp.
  assert (Hasm : assembles child s = true).
  { unfold assembles. rewrite Hroutes. destruct routeSpec; [|done].
    by apply elem_of_nil in Hm. }
  destruct (pass1_calls_split a (controllerMap s) child cspec s s)
    as (n & before & after & Hn & Hr & Hsplit & Hb & Ha);
    [done | by apply get_Some_elem | done | apply same_input_refl |].
  fold s1 in Hr. rewrite Hcr in Hr. inversion Hr; subst cr.
  rewrite Hsplit, !elem_of_app. right; left.
  by eapply controller_calls_verb.
Qed.

Lemma C5_parent_middleware_appended_witness :
  exists pass1_emitted earlier later,
    calls (exec (pass1 (External 0)) (exec demo initial))
    = calls (exec demo initial) ++ pass1_emitted
    /\ calls (exec (pass1 (External 0)) (exec demo initial))
       = calls (exec demo initial) ++ pass1_emitted ++ earlier
    /\ calls (exec (applyRoutes (External 0)) (exec demo initial))
       = calls (exec demo initial) ++ pass1_emitted ++ earlier
         ++ [Use (Created 1) [30]]
         ++ [Mount (Created 0) (PathStr "/b") (Created 1)]
         ++ later
    /\ (forOf [] wire
          (exec (processParents 2 1)
             (exec (pass1 (External 0)) (exec demo initial)))).2
       = emit later
           (exec (processParents 2 1)
              (exec (pass1 (External 0)) (exec demo initial)))
    /\ (forall routeSpec m hms p h,
          JsMap.get 2 (routeMap (exec demo initial)) = Some routeSpec ->
          (m, hms) ∈ routeSpec -> (p, h) ∈ hms ->
          Verb (Created 1) m p h ∈ pass1_emitted).
Proof.
  apply (C5_parent_middleware_appended 0 (exec demo initial) [] 2 1 []
           (exec (pass1 (External 0)) (exec demo initial))
           (Created 0) (Created 1) (mkControllerSpec None (PathStr "/b"))).
  - by_compute.
  - vm_compute; reflexivity.
  - vm_compute; reflexivity.
  - vm_compute; reflexivity.
  - vm_compute; reflexivity.
  - vm_compute; reflexivity.
Defined.


(** ** A controller without routes *)

Lemma after_controller_skipped app c spec s :
  assembles c s = false -> after_controller app c spec s = s.
Proof. unfold after_controller. by intros ->. Qed.

Lemma routerMap_assemble_skipped app l s0 s c :
  assembles c s0 = false -> same_input s0 s ->
  JsMap.get c (routerMap (assemble app l s)) = JsMap.get c (routerMap s).
Proof.
  intros Hc. revert s. induction l as [|e l IH]; intros s Hs; simpl; [done|].
  rewrite IH
    by (eapply same_input_trans; [done | apply same_input_after_controller]).
  rewrite routerMap_after_controller.
  case_bool_decide as He; [|done]. subst.
  by rewrite (assembles_same s0 s), Hc.
Qed.

Lemma after_controller_undeclare app c c' spec s :
  after_controller app c' spec (undeclare c s)
  = undeclare c (after_controller app c' spec s).
Proof.
  unfold after_controller, assembles, undeclare, with_controllerMap. simpl.
  by destruct (JsMap.get c' (routeMap s)) as [[|e rs]|].
Qed.

Lemma assemble_undeclare app c l s :
  assemble app l (undeclare c s) = undeclare c (assemble app l s).
Proof.
  revert s. induction l as [|e l IH]; intros s; simpl; [done|].
  by rewrite after_controller_undeclare, IH.
Qed.

Lemma assemble_remove app c l s0 s :
  assembles c s0 = false -> same_input s0 s ->
  assemble app (JsMap.remove c l) s = assemble app l s.
Proof.
  intros Hc. revert s. induction l as [|[c' spec] l IH]; intros s Hs; [done|].
  cbn [JsMap.remove]. destruct (decide (c = c')) as [<-|Hne]; simpl.
  - rewrite after_controller_skipped by (by rewrite (assembles_same s0 s)).
    by apply IH.
  - apply IH.
    eapply same_input_trans; [done | apply same_input_after_controller].
Qed.

Lemma processParents_undeclare c child parent s :
  JsMap.get c (routerMap s) = None ->
  processParents child parent (undeclare c s)
  = ((processParents child parent s).1,
     undeclare c (processParents child parent s).2).
Proof.
  intros Hc.
  unfold processParents, bind, gets, throw, undeclare, with_controllerMap.
  cbn.
  destruct (JsMap.get parent (routerMap s)) as [pr|]; cbn; [|done].
  destruct (JsMap.get child (routerMap s)) as [cr|] eqn:Hcr; cbn; [|done].
  rewrite get_remove_ne by (intros ->; congruence).
  destruct (JsMap.get parent (controllerMiddlewareMap s)) as [[|x mw]|],
    (JsMap.get child (controllerMap s)) as [cs|]; done.
Qed.

Lemma forOf_wire_undeclare c l s :
  JsMap.get c (routerMap s) = None ->
  forOf l wire (undeclare c s)
  = ((forOf l wire s).1, undeclare c (forOf l wire s).2).
Proof.
  revert s. induction l as [|[child parent] l IH]; intros s Hc; [done|].
  cbn [forOf]. unfold bind.
  change (wire (child, parent)) with (processParents child parent).
  rewrite processParents_undeclare by done.
  destruct (processParents_calls child parent s) as (cs & Hs & _).
  destruct (processParents child parent s) as [[[]|e] s']; simpl in *; [|done].
  subst s'. by apply IH.
Qed.

(** C1: a controller whose route table is absent or empty is skipped by
    Pass 1: its step changes nothing (no router is created, no call is
    made), and [applyRoutes] leaves the router table as it was at that
    controller.  When the controller has no router beforehand, the whole
    run is the one of a registry in which the controller was never
    declared: same outcome, same calls on the host, same routers; whether
    the controller has middleware or is some controller's parent makes no
    difference. *)
Theorem C1_routeless_controller_excluded app s c :
  JsMap.get c (routeMap s) = None \/ JsMap.get c (routeMap s) = Some [] ->
  (forall spec, processController app c spec s = (Ok tt, s))
  /\ JsMap.get c (routerMap (exec (applyRoutes app) s))
     = JsMap.get c (routerMap s)
  /\ (JsMap.get c (routerMap s) = None ->
      outcome (applyRoutes app) (undeclare c s) = outcome (applyRoutes app) s
      /\ calls (exec (applyRoutes app) (undeclare c s))
         = calls (exec (applyRoutes app) s)
      /\ routerMap (exec (applyRoutes app) (undeclare c s))
         = routerMap (exec (applyRoutes app) s)
      /\ created (exec (applyRoutes app) (undeclare c s))
         = created (exec (applyRoutes app) s)).
Proof.
  intros Hroutes.
  assert (Hc : assembles c s = false).
  { unfold assembles. by destruct Hroutes as [-> | ->]. }
  assert (Hr1 : JsMap.get c (routerMap (assemble app (controllerMap s) s))
                = JsMap.get c (routerMap s)).
  { by apply (routerMap_assemble_skipped _ _ s), same_input_refl. }
  split_and!.
  - intros spec. rewrite processController_run.
    by rewrite after_controller_skipped.
  - unfold exec. rewrite applyRoutes_run.
    destruct (forOf_wire_registry (parentMap s)
                (assemble app (controllerMap s) s)) as (_ & <- & _).
    done.
  - intros Hnone. unfold exec, outcome. rewrite !applyRoutes_run.
    change (parentMap (undeclare c s)) with (parentMap s).
    change (controllerMap (undeclare c s))
      with (JsMap.remove c (controllerMap s)).
    rewrite assemble_undeclare.
    rewrite (assemble_remove app c _ s s)
      by (done || apply same_input_refl).
    rewrite forOf_wire_undeclare by congruence.
    done.
Qed.

Lemma C1_routeless_controller_excluded_witness :
  (forall spec,
     processController (External 0) 7 spec (exec routeless_child initial)
     = (Ok tt, exec routeless_child initial))
  /\ JsMap.get 7
       (routerMap (exec (applyRoutes (External 0))
                     (exec routeless_child initial)))
     = JsMap.get 7 (routerMap (exec routeless_child initial))
  /\ (JsMap.get 7 (routerMap (exec routeless_child initial)) = None ->
      outcome (applyRoutes (External 0))
        (undeclare 7 (exec routeless_child initial))
      = outcome (applyRoutes (External 0)) (exec routeless_child initial)
      /\ calls (exec (applyRoutes (External 0))
                  (undeclare 7 (exec routeless_child initial)))
         = calls (exec (applyRoutes (External 0))
                    (exec routeless_child initial))
      /\ routerMap (exec (applyRoutes (External 0))
                      (undeclare 7 (exec routeless_child initial)))
         = routerMap (exec (applyRoutes (External 0))
                        (exec routeless_child initial))
      /\ created (exec (applyRoutes (External 0))
                    (undeclare 7 (exec routeless_child initial)))
         = created (exec (applyRoutes (External 0))
                      (exec routeless_child initial))).
Proof.
  apply (C1_routeless_controller_excluded (External 0)
           (exec routeless_child initial) 7).
  left. vm_compute; reflexivity.
Defined.

(** ** Registration *)

(** [addRoute] in full: it throws when the method name is one the route
    spec inherits, and stores the handler otherwise. *)
Lemma addRoute_cases c m p h s :
  addRoute c m p h s
  = match method_property c m s with
    | Inherited => (Throw TypeError, with_routeMap (open_routes c) s)
    | _ => (Ok tt, with_routeMap (put_route c m p h) s)
    end.
Proof.
  unfold addRoute, method_property, bind, gets, modify, ret, throw,
    put_route, open_routes, assignMethodSpec, setHandler, with_routeMap,
    getProperty.
  destruct (JsMap.get c (routeMap s)) as [rs|] eqn:Hc; cbn.
  - destruct (JsMap.get m rs) as [hms|] eqn:Hm; cbn.
    + by rewrite Hc, Hm.
    + destruct (bool_decide (m ∈ Object_prototype)); cbn.
      * by destruct s.
      * by rewrite Hc, !get_set_eq, !set_set.
  - destruct (bool_decide (m ∈ Object_prototype)); cbn; [done|].
    by rewrite !get_set_eq, !set_set.
Qed.

Lemma method_property_own_method c m s :
  m ∉ Object_prototype -> method_property c m s <> Inherited.
Proof.
  intros Hm. unfold method_property, getProperty.
  destruct (JsMap.get m _); [done|]. by rewrite bool_decide_eq_false_2.
Qed.

Lemma addRoute_run c m p h s :
  m ∉ Object_prototype ->
  addRoute c m p h s = (Ok tt, with_routeMap (put_route c m p h) s).
Proof.
  intros Hm. rewrite addRoute_cases.
  pose proof (method_property_own_method c m s Hm).
  by destruct (method_property c m s).
Qed.

(** Once [addRoute] has returned for a method name, the name is an own
    property of the route spec. *)
Lemma method_property_put_route c m p h s :
  exists hms,
    method_property c m (with_routeMap (put_route c m p h) s) = Own hms.
Proof.
  unfold method_property, put_route, getProperty. simpl.
  rewrite get_set_eq. simpl. rewrite get_set_eq. by eexists.
Qed.

Lemma open_routes_twice c rm : open_routes c (open_routes c rm) = open_routes c rm.
Proof.
  unfold open_routes. destruct (JsMap.get c rm) eqn:Hc.
  - by rewrite Hc.
  - by rewrite get_set_eq.
Qed.

Lemma method_property_open_routes c m s :
  method_property c m (with_routeMap (open_routes c) s)
  = method_property c m s.
Proof.
  unfold method_property, open_routes. simpl.
  destruct (JsMap.get c (routeMap s)) eqn:Hc; [by rewrite Hc|].
  by rewrite get_set_eq.
Qed.

Lemma put_route_twice c m p h1 h2 rm :
  put_route c m p h2 (put_route c m p h1 rm) = put_route c m p h2 rm.
Proof.
  unfold put_route. cbv zeta. rewrite get_set_eq. cbn [default from_option id].
  rewrite get_set_eq. cbn [default from_option id]. by rewrite !set_set.
Qed.

Lemma put_route_get c m p h rm :
  match JsMap.get c (put_route c m p h rm) with
  | Some routeSpec =>
      match JsMap.get m routeSpec with
      | Some httpMethodSpec => JsMap.get p httpMethodSpec
      | None => None
      end
  | None => None
  end = Some h.
Proof. unfold put_route. by rewrite !get_set_eq. Qed.

Lemma elem_of_set {K V} `{EqDecision K} (m : JsMap.t K V) k v k' v' :
  (k', v') ∈ JsMap.set k v m -> (k' = k /\ v' = v) \/ (k', v') ∈ m.
Proof.
  induction m as [|[k0 v0] m IH]; simpl.
  - intros Hin. apply list_elem_of_singleton in Hin. inversion Hin; auto.
  - destruct (decide (k = k0)) as [->|Hne]; rewrite !elem_of_cons.
    + intros [Hin|Hin]; [inversion Hin; auto | auto].
    + intros [Hin|Hin]; [auto | destruct (IH Hin); auto].
Qed.

Lemma wf_routes_nil : wf_routes [].
Proof.
  split; [apply wf_empty|]. intros c rs Hin. by apply elem_of_nil in Hin.
Qed.

Lemma wf_routes_put c m p h rm :
  wf_routes rm -> wf_routes (put_route c m p h rm).
Proof.
  intros [Hwf Hin]. unfold put_route. split; [by apply wf_set|].
  intros c' rs' Hc'.
  apply elem_of_set in Hc' as [[-> ->]|Hc']; [|by apply (Hin c' rs')].
  assert (Hrs : JsMap.wf (default JsMap.empty (JsMap.get c rm))
                /\ forall m' hms',
                     (m', hms') ∈ default JsMap.empty (JsMap.get c rm) ->
                     JsMap.wf hms').
  { destruct (JsMap.get c rm) as [rs|] eqn:Hc; simpl.
    - apply (Hin c rs). by apply get_Some_elem.
    - split; [apply wf_empty|]. intros ?? Hx. by apply elem_of_nil in Hx. }
  destruct Hrs as [Hrs Hhms]. split; [by apply wf_set|].
  intros m' hms' Hm'.
  apply elem_of_set in Hm' as [[-> ->]|Hm']; [|by apply (Hhms m' hms')].
  apply wf_set.
  destruct (JsMap.get m (default JsMap.empty (JsMap.get c rm)))
    as [hms|] eqn:Hm; simpl; [|apply wf_empty].
  apply (Hhms m hms). by apply get_Some_elem.
Qed.

(** ** The handler registrations of one method and path *)

Section verbs.
Context (s : State) (r : IRouter) (m : string) (p : PathParams).

Lemma verbs_routeMiddleware p' h' :
  filter (fun call => is_verb_for m p call = true)
    (routeMiddleware_calls s r p' h') = [].
Proof.
  unfold routeMiddleware_calls.
  by destruct (JsMap.get h' (routeMiddlewareMap s)) as [[|x mw]|].
Qed.

Lemma verbs_handler_other m' p' h' :
  m' <> m \/ p' <> p ->
  filter (fun call => is_verb_for m p call = true)
    (handler_calls s r m' (p', h')) = [].
Proof.
  intros Hne. unfold handler_calls.
  rewrite filter_app, verbs_routeMiddleware. simpl.
  rewrite filter_cons_False; [done|].
  simpl. rewrite andb_true_iff, !bool_decide_eq_true.
  tauto.
Qed.

Lemma verbs_handler h :
  filter (fun call => is_verb_for m p call = true)
    (handler_calls s r m (p, h)) = [Verb r m p h].
Proof.
  unfold handler_calls. rewrite filter_app, verbs_routeMiddleware. simpl.
  rewrite filter_cons_True; [done|].
  simpl. by rewrite !bool_decide_true.
Qed.

Lemma verbs_method_other m' (l : HttpMethodSpec) :
  m' <> m \/ p ∉ l.*1 ->
  filter (fun call => is_verb_for m p call = true)
    (method_calls s r (m', l)) = [].
Proof.
  unfold method_calls. simpl.
  induction l as [|[p' h'] l IH]; intros Hne; simpl; [done|].
  rewrite filter_app, IH, app_nil_r.
  - apply verbs_handler_other. destruct Hne as [?|Hp]; [by left|right].
    rewrite fmap_cons in Hp. apply not_elem_of_cons in Hp as [Hp _]. auto.
  - destruct Hne as [?|Hp]; [by left|right].
    rewrite fmap_cons in Hp. by apply not_elem_of_cons in Hp as [_ Hp].
Qed.

Lemma verbs_method (l : HttpMethodSpec) h :
  JsMap.wf l -> JsMap.get p l = Some h ->
  filter (fun call => is_verb_for m p call = true)
    (method_calls s r (m, l)) = [Verb r m p h].
Proof.
  unfold method_calls, JsMap.wf, JsMap.keys. simpl.
  induction l as [|[p' h'] l IH]; intros Hwf Hget; simpl in *; [done|].
  rewrite ?fmap_cons in Hwf. apply NoDup_cons in Hwf as [Hfresh Hwf].
  rewrite filter_app. destruct (decide (p = p')) as [<-|Hne].
  - inversion Hget; subst. rewrite verbs_handler.
    change (flat_map (handler_calls s r m) l)
      with (method_calls s r (m, l)).
    rewrite verbs_method_other by (by right). done.
  - rewrite verbs_handler_other by (right; congruence). by apply IH.
Qed.

Lemma verbs_routes_other (rs : RouteSpec) :
  m ∉ rs.*1 ->
  filter (fun call => is_verb_for m p call = true) (routes_calls s r rs) = [].
Proof.
  unfold routes_calls.
  induction rs as [|[m' l] rs IH]; intros Hm; simpl; [done|].
  rewrite fmap_cons in Hm. apply not_elem_of_cons in Hm as [Hne Hm].
  rewrite filter_app, IH, app_nil_r by done.
  apply verbs_method_other. left. intros Heq. apply Hne. by rewrite Heq.
Qed.

Lemma verbs_routes (rs : RouteSpec) l h :
  JsMap.wf rs ->
  (forall m' l', (m', l') ∈ rs -> JsMap.wf l') ->
  JsMap.get m rs = Some l -> JsMap.get p l = Some h ->
  filter (fun call => is_verb_for m p call = true)
    (routes_calls s r rs) = [Verb r m p h].
Proof.
  unfold routes_calls, JsMap.wf at 1, JsMap.keys.
  induction rs as [|[m' l'] rs IH]; intros Hwf Hin Hm Hp; simpl in *;
    [done|].
  rewrite ?fmap_cons in Hwf. apply NoDup_cons in Hwf as [Hfresh Hwf].
  rewrite filter_app. destruct (decide (m = m')) as [<-|Hne].
  - inversion Hm; subst.
    rewrite (verbs_method l h); [|apply (Hin m l), elem_of_cons; by left|done].
    fold (routes_calls s r rs). by rewrite verbs_routes_other.
  - rewrite verbs_method_other by (left; congruence).
    apply IH; try done. intros m0 l0 Hx. apply (Hin m0 l0).
    apply elem_of_cons; by right.
Qed.
End verbs.

Lemma addRoute_twice_run c m p h1 h2 s :
  (addRoute c m p h1 ;; addRoute c m p h2) s = addRoute c m p h2 s.
Proof.
  unfold bind. rewrite (addRoute_cases c m p h1 s), (addRoute_cases c m p h2 s).
  destruct (method_property c m s) eqn:Hprop; [ |done| ];
    rewrite addRoute_cases;
    destruct (method_property_put_route c m p h1 s) as [hms ->];
    unfold with_routeMap; simpl; by rewrite put_route_twice.
Qed.

Lemma verbs_not_wiring m p r cs :
  Forall (fun c => is_use c = true \/ is_mount c = true) cs ->
  filter (fun call => is_verb_for m p call = true) (stack_of r cs) = [].
Proof.
  intros Hcs. apply filter_none, Forall_forall. intros call Hin.
  apply list_elem_of_filter in Hin as [_ Hin].
  rewrite Forall_forall in Hcs. specialize (Hcs call Hin).
  destruct call; simpl in *; try done; destruct Hcs; done.
Qed.

(** C6: registering a second handler for an HTTP method (a name that is
    not one every object inherits) and path of a controller is not an
    error and leaves the registry as if only the second had been
    registered: the first is overwritten.  After
    [applyRoutes], the controller's router has exactly one handler
    registration for that method and path, and it is the second
    handler. *)
Theorem C6_last_route_registration_wins a s c spec m p h1 h2 :
  wf_state s ->
  JsMap.get c (controllerMap s) = Some spec ->
  m ∉ Object_prototype ->
  outcome (addRoute c m p h1 ;; addRoute c m p h2) s = Ok tt
  /\ exec (addRoute c m p h1 ;; addRoute c m p h2) s
     = exec (addRoute c m p h2) s
  /\ route_of c m p (exec (addRoute c m p h1 ;; addRoute c m p h2) s)
     = Some h2
  /\ exists r emitted,
       JsMap.get c
         (routerMap
            (exec (applyRoutes (External a))
               (exec (addRoute c m p h1 ;; addRoute c m p h2) s)))
       = Some r
       /\ calls
            (exec (applyRoutes (External a))
               (exec (addRoute c m p h1 ;; addRoute c m p h2) s))
          = calls s ++ emitted
       /\ filter (fun call => is_verb_for m p call = true)
            (stack_of r emitted)
          = [Verb r m p h2].
Proof.
  intros Hwf Hspec Hmethod. unfold exec, outcome.
  rewrite addRoute_twice_run, addRoute_run by done. simpl.
  set (s2 := with_routeMap (put_route c m p h2) s).
  pose proof (put_route_get c m p h2 (routeMap s)) as Hroute.
  split_and!; [done | done | exact Hroute |].
  destruct (JsMap.get c (put_route c m p h2 (routeMap s)))
    as [rs|] eqn:Hrs; [|done].
  destruct (JsMap.get m rs) as [hms|] eqn:Hhms; [|done].
  assert (Hasm : assembles c s2 = true).
  { unfold assembles. simpl. rewrite Hrs. by destruct rs. }
  destruct (wf_routes_put c m p h2 (routeMap s) (wf_routeMap s Hwf))
    as [_ Hnested].
  destruct (Hnested c rs (get_Some_elem _ _ _ Hrs)) as [Hwf_rs Hwf_hms].
  destruct (pass1_controller a s2 c spec (wf_controllerMap s Hwf) Hspec Hasm)
    as (n & before & after & _ & Hr & Hcalls & Hb & Ha).
  rewrite applyRoutes_run.
  destruct (forOf_wire_calls (parentMap s2)
              (assemble (External a) (controllerMap s2) s2))
    as (wiring & -> & Hwiring).
  exists (Created n),
    ((before ++ controller_calls (External a) c spec n s2 ++ after)
     ++ wiring).
  split_and!.
  - exact Hr.
  - transitivity
      (calls (assemble (External a) (controllerMap s2) s2) ++ wiring);
      [done|].
    rewrite Hcalls. change (calls s2) with (calls s).
    by rewrite <- !app_assoc.
  - unfold stack_of at 1. rewrite !filter_app.
    fold (stack_of (Created n) before) (stack_of (Created n) after)
      (stack_of (Created n) wiring)
      (stack_of (Created n) (controller_calls (External a) c spec n s2)).
    rewrite (stack_of_unrelated _ before), (stack_of_unrelated _ after)
      by done.
    rewrite (stack_of_controller_calls a c spec n s2 rs) by done.
    rewrite app_nil_r. simpl. rewrite !filter_app.
    rewrite verbs_not_wiring by done.
    rewrite (verbs_routes s2 (Created n) m p (ownEntries rs) hms h2);
      [ | by apply wf_ownEntries
        | intros m' l' Hin; by apply (Hwf_hms m' l'), elem_of_ownEntries
        | by rewrite get_ownEntries
        | done ].
    rewrite app_nil_r. unfold controllerMiddleware_calls.
    by destruct (JsMap.get c (controllerMiddlewareMap s2)).
Qed.

Lemma wf_state_declared_only : wf_state (exec declared_only initial).
Proof. split; try by_compute. apply wf_routes_nil. Qed.

Lemma C6_last_route_registration_wins_witness :
  outcome (addRoute 1 "get" (PathStr "/x") 10 ;;
           addRoute 1 "get" (PathStr "/x") 11) (exec declared_only initial)
  = Ok tt
  /\ exec (addRoute 1 "get" (PathStr "/x") 10 ;;
           addRoute 1 "get" (PathStr "/x") 11) (exec declared_only initial)
     = exec (addRoute 1 "get" (PathStr "/x") 11) (exec declared_only initial)
  /\ route_of 1 "get" (PathStr "/x")
       (exec (addRoute 1 "get" (PathStr "/x") 10 ;;
              addRoute 1 "get" (PathStr "/x") 11)
          (exec declared_only initial))
     = Some 11
  /\ exists r emitted,
       JsMap.get 1
         (routerMap
            (exec (applyRoutes (External 0))
               (exec (addRoute 1 "get" (PathStr "/x") 10 ;;
                      addRoute 1 "get" (PathStr "/x") 11)
                  (exec declared_only initial))))
       = Some r
       /\ calls
            (exec (applyRoutes (External 0))
               (exec (addRoute 1 "get" (PathStr "/x") 10 ;;
                      addRoute 1 "get" (PathStr "/x") 11)
                  (exec declared_only initial)))
          = calls (exec declared_only initial) ++ emitted
       /\ filter (fun call => is_verb_for "get" (PathStr "/x") call = true)
            (stack_of r emitted)
          = [Verb r "get" (PathStr "/x") 11].
Proof.
  apply (C6_last_route_registration_wins 0 (exec declared_only initial) 1
           (mkControllerSpec None (PathStr "/a")) "get" (PathStr "/x") 10 11).
  - exact wf_state_declared_only.
  - vm_compute; reflexivity.
  - by_compute.
Defined.

(** ** Assembly does not depend on which router objects it gets *)

Lemma get_fmap {K V W} `{EqDecision K} (f : V -> W) (m : JsMap.t K V) k :
  JsMap.get k (prod_map id f <$> m) = f <$> JsMap.get k m.
Proof.
  induction m as [|[k' v'] m IH]; simpl; [done|].
  by destruct (decide (k = k')).
Qed.

Lemma set_fmap {K V W} `{EqDecision K} (f : V -> W) (m : JsMap.t K V) k v :
  prod_map id f <$> JsMap.set k v m
  = JsMap.set k (f v) (prod_map id f <$> m).
Proof.
  induction m as [|[k' v'] m IH]; [done|].
  rewrite fmap_cons. cbn [JsMap.set prod_map id fst snd].
  destruct (decide (k = k')); rewrite fmap_cons; [done|]. by rewrite IH.
Qed.

Lemma relocatable_ret {A} (a : A) : relocatable (ret a).
Proof. done. Qed.

Lemma relocatable_bind {A B} (c : M A) (f : A -> M B) :
  relocatable c -> (forall a, relocatable (f a)) ->
  relocatable (x <- c ;; f x).
Proof.
  intros Hc Hf k old s. unfold bind. rewrite Hc.
  destruct (c s) as [[a|e] s']; simpl; [apply Hf | done].
Qed.

Lemma relocatable_forOf {A} (l : list A) (body : A -> M unit) :
  (forall x, relocatable (body x)) -> relocatable (forOf l body).
Proof.
  intros Hbody. induction l as [|x l IH]; intros k old s; simpl; [done|].
  unfold bind. rewrite Hbody.
  destruct (body x s) as [[[]|e] s']; simpl; [apply IH | done].
Qed.

Lemma relocatable_register r : relocatable (register r).
Proof.
  intros k old s. destruct r; simpl; try done.
  rewrite !addRoute_cases.
  change (method_property clazz httpMethod (relocate k old s))
    with (method_property clazz httpMethod s).
  by destruct (method_property clazz httpMethod s).
Qed.

Lemma routes_calls_relocate k old s n (routeSpec : RouteSpec) :
  routes_calls (relocate k old s) (Created (k + n)) routeSpec
  = shift_call k <$> routes_calls s (Created n) routeSpec.
Proof.
  unfold routes_calls.
  induction routeSpec as [|[m l] rs IH]; simpl; [done|].
  rewrite fmap_app, <- IH. f_equal. clear IH.
  unfold method_calls. simpl.
  induction l as [|[p h] l IH]; simpl; [done|].
  rewrite fmap_app, <- IH. f_equal.
  unfold handler_calls, routeMiddleware_calls. simpl.
  by destruct (JsMap.get h (routeMiddlewareMap s)) as [[|x mw]|].
Qed.

Lemma controller_calls_relocate k old a c spec n s :
  controller_calls (External a) c spec (k + n) (relocate k old s)
  = shift_call k <$> controller_calls (External a) c spec n s.
Proof.
  unfold controller_calls. simpl.
  destruct (JsMap.get c (routeMap s)) as [[|e rs]|]; try done.
  unfold assembly_calls. rewrite fmap_cons, !fmap_app.
  rewrite routes_calls_relocate. simpl. f_equal. f_equal; [|f_equal].
  - unfold controllerMiddleware_calls. simpl.
    by destruct (JsMap.get c (controllerMiddlewareMap s)).
  - unfold mount_calls. simpl. by destruct (JsMap.has c (parentMap s)).
Qed.

Lemma after_controller_relocate k old a c spec s :
  after_controller (External a) c spec (relocate k old s)
  = relocate k old (after_controller (External a) c spec s).
Proof.
  unfold after_controller.
  change (assembles c (relocate k old s)) with (assembles c s).
  destruct (assembles c s); [|done].
  change (created (relocate k old s)) with (k + created s).
  rewrite controller_calls_relocate.
  unfold relocate. simpl.
  by rewrite set_fmap, fmap_app, app_assoc, Nat.add_succ_r.
Qed.

Lemma assemble_relocate k old a l s :
  assemble (External a) l (relocate k old s)
  = relocate k old (assemble (External a) l s).
Proof.
  revert s. induction l as [|e l IH]; intros s; simpl; [done|].
  by rewrite after_controller_relocate, IH.
Qed.

Lemma relocatable_processParents child parent :
  relocatable (processParents child parent).
Proof.
  intros k old s. unfold processParents, bind, gets, throw. cbn.
  rewrite ?get_fmap.
  destruct (JsMap.get parent (routerMap s)) as [pr|]; cbn;
    rewrite ?get_fmap; [|done].
  destruct (JsMap.get child (routerMap s)) as [cr|]; cbn;
    rewrite ?get_fmap; [|done].
  destruct (JsMap.get parent (controllerMiddlewareMap s)) as [[|x mw]|],
    (JsMap.get child (controllerMap s)) as [cs|]; cbn;
    unfold relocate, emit; cbn; rewrite ?fmap_app, ?app_assoc; done.
Qed.

Lemma relocatable_applyRoutes a : relocatable (applyRoutes (External a)).
Proof.
  intros k old s. rewrite !applyRoutes_run.
  change (parentMap (relocate k old s)) with (parentMap s).
  change (controllerMap (relocate k old s)) with (controllerMap s).
  rewrite assemble_relocate.
  apply relocatable_forOf. intros [child parent].
  apply relocatable_processParents.
Qed.

Lemma relocatable_cycle a rs : relocatable (cycle (External a) rs).
Proof.
  intros k old s. unfold cycle, bind.
  rewrite (relocatable_forOf rs register relocatable_register).
  destruct (forOf rs register s) as [[[]|e] s']; simpl; [|done].
  apply relocatable_applyRoutes.
Qed.

Lemma reset_run s :
  reset s = (Ok tt, mkState [] [] [] [] [] [] (created s) (calls s)).
Proof. done. Qed.

Lemma reset_relocate s :
  exec reset s = relocate (created s) (calls s) initial.
Proof.
  unfold exec. rewrite reset_run. unfold relocate. simpl.
  by rewrite Nat.add_0_r, app_nil_r.
Qed.

(** C8: [reset] empties the six tables and touches nothing else; on
    tables that are empty already it changes nothing; and a cycle of
    registrations and [applyRoutes] run after a [reset], from any state,
    ends as the same cycle run first thing does: same outcome, same
    tables, and the same calls on the host after those made before, up to
    the identity of the routers created (their serials continue where the
    host had arrived). *)
Theorem C8_reset_clears_and_isolates a rs s :
  outcome reset s = Ok tt
  /\ tables_empty (exec reset s)
  /\ created (exec reset s) = created s
  /\ calls (exec reset s) = calls s
  /\ (tables_empty s -> exec reset s = s)
  /\ outcome (cycle (External a) rs) (exec reset s)
     = outcome (cycle (External a) rs) initial
  /\ exec (cycle (External a) rs) (exec reset s)
     = relocate (created s) (calls s) (exec (cycle (External a) rs) initial).
Proof.
  split_and!; try done.
  - intros (?&?&?&?&?&?). unfold exec. rewrite reset_run.
    destruct s; simpl in *; by subst.
  - unfold outcome. by rewrite reset_relocate, relocatable_cycle.
  - unfold exec at 1 3. rewrite reset_relocate, relocatable_cycle. done.
Qed.

Lemma C8_reset_clears_and_isolates_witness :
  outcome reset (exec (applyRoutes (External 0)) (exec orphans initial))
  = Ok tt
  /\ exec (cycle (External 0) demo_script)
       (exec reset (exec (applyRoutes (External 0)) (exec orphans initial)))
     = relocate 3
         (calls (exec (applyRoutes (External 0)) (exec orphans initial)))
         (exec (cycle (External 0) demo_script) initial)
  /\ calls (exec (cycle (External 0) demo_script)
              (exec reset
                 (exec (applyRoutes (External 0)) (exec orphans initial))))
     = calls (exec (applyRoutes (External 0)) (exec orphans initial))
       ++ [CreateRouter (Created 3) None; Use (Created 3) [30];
           UsePath (Created 3) (PathStr "/x") [20];
           Verb (Created 3) "get" (PathStr "/x") 10;
           Mount (External 0) (PathStr "/a") (Created 3);
           CreateRouter (Created 4) None;
           Verb (Created 4) "get" (PathStr "/y") 11;
           Use (Created 4) [30];
           Mount (Created 3) (PathStr "/b") (Created 4)].
Proof.
  pose proof (C8_reset_clears_and_isolates 0 demo_script
                (exec (applyRoutes (External 0)) (exec orphans initial)))
    as (H1 & _ & _ & _ & _ & _ & H7).
  split_and!; [exact H1 | exact H7 |].
  rewrite H7. vm_compute. reflexivity.
Defined.

(** ** Registration keeps the tables well formed *)

Lemma wf_state_initial : wf_state initial.
Proof. split; try apply wf_empty. apply wf_routes_nil. Qed.

Lemma wf_routes_open c rm : wf_routes rm -> wf_routes (open_routes c rm).
Proof.
  intros [Hwf Hin]. unfold open_routes.
  destruct (JsMap.get c rm); [done|]. split; [by apply wf_set|].
  intros c' rs' Hc'.
  apply elem_of_set in Hc' as [[-> ->]|Hc']; [|by apply (Hin c' rs')].
  split; [apply wf_empty|]. intros ?? Hx. by apply elem_of_nil in Hx.
Qed.

Lemma wf_state_register r s : wf_state s -> wf_state (exec (register r) s).
Proof.
  intros [Hr Hc Hcm Hrm Hrt Hp]. unfold exec.
  destruct r; simpl; rewrite ?addRoute_cases;
    try destruct (method_property _ _ _);
    split; simpl; try done; try (by apply wf_set);
    first [by apply wf_routes_put | by apply wf_routes_open].
Qed.



(** The one registration that throws: a route under a method name that
    the route spec inherits. *)
Lemma addRoute_throws c m p h s :
  method_property c m s = Inherited ->
  addRoute c m p h s = (Throw TypeError, with_routeMap (open_routes c) s).
Proof. intros Hm. by rewrite addRoute_cases, Hm. Qed.





(** ** Routers belong to declared controllers *)

Lemma get_set_is_Some {K V} `{EqDecision K} (m : JsMap.t K V) k v k' :
  is_Some (JsMap.get k' m) -> is_Some (JsMap.get k' (JsMap.set k v m)).
Proof.
  destruct (decide (k = k')) as [->|Hne].
  - rewrite get_set_eq. by eexists.
  - by rewrite get_set_ne.
Qed.

Lemma elem_get_is_Some {K V} `{EqDecision K} (m : JsMap.t K V) k v :
  (k, v) ∈ m -> is_Some (JsMap.get k m).
Proof.
  intros Hin. destruct (JsMap.get k m) eqn:Hget; [by eexists|].
  apply get_None_keys in Hget. exfalso. apply Hget.
  apply list_elem_of_fmap. by exists (k, v).
Qed.

Lemma routers_have_specs_same s s' :
  same_registry s s' -> routers_have_specs s -> routers_have_specs s'.
Proof.
  intros ((_ & Hcm & _) & Hrm & _) Hinv c r. rewrite <- Hrm, <- Hcm.
  apply Hinv.
Qed.

Lemma routers_have_specs_register r s :
  routers_have_specs s -> routers_have_specs (exec (register r) s).
Proof.
  intros Hinv c rt. unfold exec.
  destruct r; simpl; rewrite ?addRoute_cases;
    try destruct (method_property _ _ _); simpl; try apply Hinv.
  intros Hget. by apply get_set_is_Some, (Hinv c rt).
Qed.

Lemma routers_have_specs_after_controller app c spec s :
  is_Some (JsMap.get c (controllerMap s)) ->
  routers_have_specs s ->
  routers_have_specs (after_controller app c spec s).
Proof.
  intros Hc Hinv c' r. rewrite routerMap_after_controller.
  destruct (same_input_after_controller app c spec s) as (_ & <- & _).
  case_bool_decide as Heq; simpl; [subst|apply Hinv].
  destruct (assembles c s); [done | apply Hinv].
Qed.

Lemma routers_have_specs_assemble app l s :
  (forall e, e ∈ l -> is_Some (JsMap.get e.1 (controllerMap s))) ->
  routers_have_specs s ->
  routers_have_specs (assemble app l s).
Proof.
  revert s. induction l as [|e l IH]; intros s Hl Hinv; simpl; [done|].
  apply IH.
  - intros e' He'.
    destruct (same_input_after_controller app e.1 e.2 s) as (_ & <- & _).
    apply Hl, elem_of_cons. by right.
  - apply routers_have_specs_after_controller; [|done].
    apply Hl, elem_of_cons. by left.
Qed.

Lemma processParents_no_TypeError child parent s :
  routers_have_specs s ->
  outcome (processParents child parent) s <> Throw TypeError.
Proof.
  intros Hinv. unfold outcome, processParents, bind, gets, throw.
  destruct (JsMap.get parent (routerMap s)) as [pr|]; [|done].
  destruct (JsMap.get child (routerMap s)) as [cr|] eqn:Hcr; [|done].
  destruct (Hinv child cr Hcr) as [cs ->].
  by destruct (JsMap.get parent (controllerMiddlewareMap s)) as [[|x mw]|].
Qed.

Lemma forOf_wire_no_TypeError l s :
  routers_have_specs s -> outcome (forOf l wire) s <> Throw TypeError.
Proof.
  revert s. induction l as [|[c p] l IH]; intros s Hinv; [done|].
  unfold outcome. cbn [forOf]. unfold bind.
  change (wire (c, p)) with (processParents c p).
  pose proof (processParents_no_TypeError c p s Hinv) as Hstep.
  destruct (processParents_calls c p s) as (cs & Hs & _).
  unfold outcome in Hstep.
  destruct (processParents c p s) as [[[]|e] s']; simpl in *;
    [|congruence].
  subst s'. apply IH.
  by eapply routers_have_specs_same; [apply same_registry_emit|].
Qed.

Lemma reachable_routers_have_specs s : reachable s -> routers_have_specs s.
Proof.
  induction 1 as [|r s _ IH|s _ IH|app s _ IH|app c spec s _ IH Hin
                  |child parent s _ IH Hin].
  - intros c r Hget. done.
  - by apply routers_have_specs_register.
  - intros c r Hget. done.
  - unfold exec. rewrite applyRoutes_run.
    eapply routers_have_specs_same; [apply forOf_wire_registry|].
    apply routers_have_specs_assemble; [|done].
    intros [c spec] Hin. by eapply elem_get_is_Some.
  - unfold exec. rewrite processController_run. simpl.
    apply routers_have_specs_after_controller; [|done].
    by eapply elem_get_is_Some.
  - unfold exec.
    destruct (processParents_calls child parent s) as (cs & -> & _).
    by eapply routers_have_specs_same; [apply same_registry_emit|].
Qed.

(** C10: in every state the module can reach, between the steps of
    [applyRoutes] included, a controller that has a router has a
    controller spec.  So when [processParents] has found the child's
    router, it finds the child's spec: neither [processParents] nor
    [applyRoutes] ever fails on reading the root of a missing spec. *)
Theorem C10_routers_have_controller_specs s :
  reachable s ->
  routers_have_specs s
  /\ (forall child parent childRouter,
        JsMap.get child (routerMap s) = Some childRouter ->
        is_Some (JsMap.get child (controllerMap s))
        /\ outcome (processParents child parent) s <> Throw TypeError)
  /\ (forall app, outcome (applyRoutes app) s <> Throw TypeError).
Proof.
  intros Hs. pose proof (reachable_routers_have_specs s Hs) as Hinv.
  split_and!; [done | |].
  - intros child parent cr Hcr. split; [by apply (Hinv child cr)|].
    by apply processParents_no_TypeError.
  - intros app. unfold outcome. rewrite applyRoutes_run.
    apply forOf_wire_no_TypeError.
    apply routers_have_specs_assemble; [|done].
    intros [c spec] Hin. by eapply elem_get_is_Some.
Qed.

Lemma reachable_registered rs s : reachable s -> reachable (registered rs s).
Proof.
  revert s. induction rs as [|r rs IH]; intros s Hs; simpl; [done|].
  by apply IH, reach_register.
Qed.

Lemma C10_routers_have_controller_specs_witness :
  routers_have_specs
    (exec (applyRoutes (External 0)) (registered demo_script initial))
  /\ (forall child parent childRouter,
        JsMap.get child
          (routerMap
             (exec (applyRoutes (External 0)) (registered demo_script initial)))
        = Some childRouter ->
        is_Some
          (JsMap.get child
             (controllerMap
                (exec (applyRoutes (External 0))
                   (registered demo_script initial))))
        /\ outcome (processParents child parent)
             (exec (applyRoutes (External 0)) (registered demo_script initial))
           <> Throw TypeError)
  /\ (forall app,
        outcome (applyRoutes app)
          (exec (applyRoutes (External 0)) (registered demo_script initial))
        <> Throw TypeError).
Proof.
  apply (C10_routers_have_controller_specs
           (exec (applyRoutes (External 0)) (registered demo_script initial))).
  apply reach_applyRoutes, reachable_registered, reach_initial.
Defined.

(** ** Controller middleware that is present and empty *)

(** C7, where the code differs: [processControllerMiddleware] tests only
    that the controller has an entry, so an entry holding an empty middleware
    list is passed to [router.use] all the same, while an empty route
    middleware list (and, in Pass 2, an empty parent middleware list) is
    left out. *)
Theorem C7_empty_controller_middleware_is_registered :
  JsMap.get 1 (controllerMiddlewareMap (exec empty_middleware initial))
  = Some []
  /\ JsMap.get 10 (routeMiddlewareMap (exec empty_middleware initial))
     = Some []
  /\ applyRoutes (External 0) (exec empty_middleware initial)
     = (Ok tt,
        mkState
          [(1, [("get", [(PathStr "/x", 10)])])]
          [(1, mkControllerSpec None (PathStr "/a"))]
          [(1, [])]
          [(10, [])]
          [(1, Created 0)]
          []
          1
          [CreateRouter (Created 0) None;
           Use (Created 0) [];
           Verb (Created 0) "get" (PathStr "/x") 10;
           Mount (External 0) (PathStr "/a") (Created 0)]).
Proof. split_and!; vm_compute; reflexivity. Qed.

(* ===================================================================== *)
(** * Further properties of the assembly *)

(** ** When [applyRoutes] succeeds *)

Lemma assemble_router_iff app l s0 s c :
  same_input s0 s ->
  is_Some (JsMap.get c (routerMap (assemble app l s)))
  <-> is_Some (JsMap.get c (routerMap s))
      \/ (assembles c s0 = true /\ c ∈ l.*1).
Proof.
  revert s. induction l as [|e l IH]; intros s Hs.
  { simpl. rewrite elem_of_nil. tauto. }
  change (assemble app (e :: l) s)
    with (assemble app l (after_controller app e.1 e.2 s)).
  rewrite IH
    by (eapply same_input_trans; [done | apply same_input_after_controller]).
  rewrite routerMap_after_controller, fmap_cons, elem_of_cons.
  rewrite (assembles_same s0 s) by done.
  case_bool_decide as Heq; simpl.
  - subst c. destruct (assembles e.1 s0) eqn:Hasm.
    + split; [intros _; right; auto | intros _; left; by eexists].
    + split; [intros [?|[? _]]; [by left | done]
             | intros [?|[? _]]; [by left | done]].
  - split; [intros [?|[? ?]]; [by left | right; auto]
           | intros [?|[? [?|?]]]; [by left | done | right; auto]].
Qed.

Lemma forOf_wire_ok_iff l s :
  routers_have_specs s ->
  outcome (forOf l wire) s = Ok tt
  <-> forall child parent, (child, parent) ∈ l ->
        is_Some (JsMap.get parent (routerMap s))
        /\ is_Some (JsMap.get child (routerMap s)).
Proof.
  revert s. induction l as [|[c p] l IH]; intros s Hinv.
  { split; [intros _ ?? Hin; by apply elem_of_nil in Hin | done]. }
  unfold outcome. cbn [forOf]. unfold bind.
  change (wire (c, p)) with (processParents c p).
  destruct (JsMap.get p (routerMap s)) as [pr|] eqn:Hp.
  2:{ rewrite processParents_throws_parent by done. split; [done|].
      intros Hall.
      assert (Hin : (c, p) ∈ (c, p) :: l) by (apply elem_of_cons; by left).
      destruct (Hall c p Hin) as [[? ?] _]. congruence. }
  destruct (JsMap.get c (routerMap s)) as [cr|] eqn:Hc.
  2:{ rewrite processParents_throws_child by (done || by eexists).
      split; [done|]. intros Hall.
      assert (Hin : (c, p) ∈ (c, p) :: l) by (apply elem_of_cons; by left).
      destruct (Hall c p Hin) as [_ [? ?]]. congruence. }
  destruct (Hinv c cr Hc) as [cs Hcs].
  rewrite (processParents_wires c p s pr cr cs) by done.
  specialize (IH (emit (parentMiddleware_calls s p cr
                        ++ [Mount pr (root cs) cr]) s)).
  unfold outcome in IH. rewrite IH
    by (by eapply routers_have_specs_same; [apply same_registry_emit|]).
  simpl. split.
  - intros Hall child parent Hin. apply elem_of_cons in Hin as [Hin|Hin].
    + inversion Hin; subst. rewrite Hp, Hc. split; by eexists.
    + by apply Hall.
  - intros Hall child parent Hin. apply Hall, elem_of_cons. by right.
Qed.

(** What one step of Pass 2 looked up, by its outcome. *)
Lemma processParents_outcome child parent s :
  match outcome (processParents child parent) s with
  | Ok _ =>
      is_Some (JsMap.get parent (routerMap s))
      /\ is_Some (JsMap.get child (routerMap s))
  | Throw (ParentControllerError c p) =>
      c = child /\ p = parent /\ JsMap.get parent (routerMap s) = None
  | Throw (UnregisteredControllerError c) =>
      c = child /\ is_Some (JsMap.get parent (routerMap s))
      /\ JsMap.get child (routerMap s) = None
  | Throw TypeError =>
      is_Some (JsMap.get child (routerMap s))
      /\ JsMap.get child (controllerMap s) = None
  end.
Proof.
  unfold outcome, processParents, bind, gets, throw.
  destruct (JsMap.get parent (routerMap s)) as [pr|]; [|done].
  destruct (JsMap.get child (routerMap s)) as [cr|]; [|by split; [|eauto]].
  destruct (JsMap.get parent (controllerMiddlewareMap s)) as [[|x mw]|],
    (JsMap.get child (controllerMap s)) as [cs|];
    unfold ret, host, modify; simpl; eauto.
Qed.

(** An error of Pass 2 comes from a pair of the parent table. *)
Lemma forOf_wire_throws l s e :
  outcome (forOf l wire) s = Throw e ->
  exists child parent,
    (child, parent) ∈ l
    /\ match e with
       | ParentControllerError c p =>
           c = child /\ p = parent /\ JsMap.get parent (routerMap s) = None
       | UnregisteredControllerError c =>
           c = child /\ is_Some (JsMap.get parent (routerMap s))
           /\ JsMap.get child (routerMap s) = None
       | TypeError =>
           is_Some (JsMap.get child (routerMap s))
           /\ JsMap.get child (controllerMap s) = None
       end.
Proof.
  revert s. induction l as [|[c p] l IH]; intros s; [done|].
  unfold outcome. cbn [forOf]. unfold bind.
  change (wire (c, p)) with (processParents c p).
  pose proof (processParents_outcome c p s) as Hstep.
  destruct (processParents_calls c p s) as (cs & Hs & _).
  unfold outcome in Hstep.
  destruct (processParents c p s) as [[[]|e'] s']; simpl in *.
  - subst s'. intros Hthrow.
    destruct (IH _ Hthrow) as (child & parent & Hin & He).
    exists child, parent. split; [apply elem_of_cons; by right | done].
  - intros [= ->]. exists c, p. split; [apply elem_of_cons; by left|].
    by destruct e.
Qed.

(** X1: from a registry without routers (at start, or after [reset]),
    the outcome of [applyRoutes] tells what the parent table holds.  When
    it returns, every pair names, as child and as parent, controllers that
    are declared and have routes.  When it throws the parent-resolution
    error for a child and a parent, the pair is in the table and the
    parent is not such a controller.  When it throws the
    unregistered-controller error for a child, the child is not such a
    controller and is in the table with a parent that is. *)
Theorem X1_applyRoutes_outcome_sound app s :
  routerMap s = [] ->
  (outcome (applyRoutes app) s = Ok tt ->
   forall child parent, (child, parent) ∈ parentMap s ->
     assembled parent s /\ assembled child s)
  /\ (forall child parent,
        outcome (applyRoutes app) s
        = Throw (ParentControllerError child parent) ->
        (child, parent) ∈ parentMap s /\ ~ assembled parent s)
  /\ (forall child,
        outcome (applyRoutes app) s
        = Throw (UnregisteredControllerError child) ->
        ~ assembled child s
        /\ exists parent, (child, parent) ∈ parentMap s /\ assembled parent s).
Proof.
  intros Hfresh. unfold outcome. rewrite applyRoutes_run.
  assert (Hlookup : forall c,
            is_Some (JsMap.get c
                       (routerMap (assemble app (controllerMap s) s)))
            <-> assembled c s).
  { intros c. rewrite (assemble_router_iff app _ s s) by apply same_input_refl.
    rewrite Hfresh. simpl. unfold assembled, JsMap.keys.
    split; [intros [[? ?]|?]; done | by right]. }
  split_and!.
  - pose proof (forOf_wire_ok_iff (parentMap s)
                  (assemble app (controllerMap s) s)) as Hiff.
    unfold outcome in Hiff. rewrite Hiff.
    + intros Hall child parent Hin. specialize (Hall child parent Hin).
      by rewrite <- !Hlookup.
    + apply routers_have_specs_assemble.
      * intros [c spec] Hin. by eapply elem_get_is_Some.
      * intros c r. by rewrite Hfresh.
  - intros child parent Hthrow.
    destruct (forOf_wire_throws _ _ _ Hthrow)
      as (c & p & Hin & <- & <- & Hnone).
    split; [done|]. rewrite <- Hlookup, Hnone. by intros [? ?].
  - intros child Hthrow.
    destruct (forOf_wire_throws _ _ _ Hthrow)
      as (c & p & Hin & <- & Hp & Hnone).
    split; [rewrite <- Hlookup, Hnone; by intros [? ?]|].
    exists p. split; [done | by apply Hlookup].
Qed.

Lemma X1_applyRoutes_outcome_sound_witness :
  (outcome (applyRoutes (External 0)) (exec orphans initial) = Ok tt ->
   forall child parent, (child, parent) ∈ parentMap (exec orphans initial) ->
     assembled parent (exec orphans initial)
     /\ assembled child (exec orphans initial))
  /\ (forall child parent,
        outcome (applyRoutes (External 0)) (exec orphans initial)
        = Throw (ParentControllerError child parent) ->
        (child, parent) ∈ parentMap (exec orphans initial)
        /\ ~ assembled parent (exec orphans initial))
  /\ (forall child,
        outcome (applyRoutes (External 0)) (exec orphans initial)
        = Throw (UnregisteredControllerError child) ->
        ~ assembled child (exec orphans initial)
        /\ exists parent,
             (child, parent) ∈ parentMap (exec orphans initial)
             /\ assembled parent (exec orphans initial)).
Proof.
  apply (X1_applyRoutes_outcome_sound (External 0) (exec orphans initial)).
  vm_compute; reflexivity.
Defined.

(** ** What [applyRoutes] leaves alone *)

(** X2: [applyRoutes], whether it returns or throws, changes none of the
    five tables the decorators fill; in the router table it only adds or
    replaces entries. *)
Theorem X2_applyRoutes_keeps_registrations app s :
  routeMap (exec (applyRoutes app) s) = routeMap s
  /\ controllerMap (exec (applyRoutes app) s) = controllerMap s
  /\ controllerMiddlewareMap (exec (applyRoutes app) s)
     = controllerMiddlewareMap s
  /\ routeMiddlewareMap (exec (applyRoutes app) s) = routeMiddlewareMap s
  /\ parentMap (exec (applyRoutes app) s) = parentMap s
  /\ (forall c, is_Some (JsMap.get c (routerMap s)) ->
        is_Some (JsMap.get c (routerMap (exec (applyRoutes app) s)))).
Proof.
  unfold exec. rewrite applyRoutes_run.
  destruct (forOf_wire_registry (parentMap s)
              (assemble app (controllerMap s) s))
    as ((H1 & H2 & H3 & H4 & H5) & H6 & _).
  destruct (same_input_assemble app (controllerMap s) s)
    as (G1 & G2 & G3 & G4 & G5).
  rewrite <- H1, <- H2, <- H3, <- H4, <- H5, <- H6.
  split_and!; try done.
  intros c Hc.
  apply (assemble_router_iff app _ s s); [apply same_input_refl | by left].
Qed.

(** ** The routers [applyRoutes] creates *)

Lemma created_assemble app l s0 s :
  same_input s0 s ->
  created (assemble app l s)
  = created s + length (filter (fun e => assembles e.1 s0 = true) l).
Proof.
  revert s. induction l as [|e l IH]; intros s Hs; simpl; [lia|].
  rewrite IH
    by (eapply same_input_trans; [done | apply same_input_after_controller]).
  rewrite created_after_controller, (assembles_same s0 s), filter_cons by done.
  destruct (assembles e.1 s0); case_decide; simpl; try done; lia.
Qed.

Lemma creates_of_controller_calls app c spec n s :
  filter (fun call => is_create call = true) (controller_calls app c spec n s)
  = if assembles c s then [CreateRouter (Created n) (opts spec)] else [].
Proof.
  unfold controller_calls, assembles.
  destruct (JsMap.get c (routeMap s)) as [[|e rs]|]; try done.
  rewrite filter_cons_True by done. f_equal.
  apply filter_none. unfold assembly_calls. rewrite !Forall_app. split_and!.
  - unfold controllerMiddleware_calls.
    destruct (JsMap.get c (controllerMiddlewareMap s));
      [by apply Forall_singleton | apply Forall_nil_2].
  - by apply routes_calls_Forall.
  - unfold mount_calls. destruct (JsMap.has c (parentMap s));
      [apply Forall_nil_2 | by apply Forall_singleton].
Qed.

Lemma creates_of_pass1_calls app l n s :
  filter (fun call => is_create call = true) (pass1_calls app l n s)
  = imap (fun i e => CreateRouter (Created (n + i)) (opts e.2))
      (filter (fun e => assembles e.1 s = true) l).
Proof.
  revert n. induction l as [|e l IH]; intros n; simpl; [done|].
  rewrite filter_app, creates_of_controller_calls, IH, filter_cons.
  destruct (assembles e.1 s); case_decide; try done; simpl.
  rewrite Nat.add_0_r. f_equal.
  apply imap_ext. intros i x _. simpl. do 2 f_equal. lia.
Qed.

(** X3: [applyRoutes] asks the host for one router per entry of the
    controller table that has routes, in the order of the table and with
    that entry's options, whether Pass 2 then throws or not; Pass 2
    creates none. *)
Theorem X3_one_router_per_assembled_controller app s :
  exists emitted,
    calls (exec (applyRoutes app) s) = calls s ++ emitted
    /\ created (exec (applyRoutes app) s)
       = created s + length (assembled_entries s)
    /\ filter (fun call => is_create call = true) emitted
       = imap (fun i e => CreateRouter (Created (created s + i)) (opts e.2))
           (assembled_entries s).
Proof.
  unfold exec. rewrite applyRoutes_run.
  destruct (forOf_wire_calls (parentMap s)
              (assemble app (controllerMap s) s)) as (wiring & -> & Hwiring).
  exists (pass1_calls app (controllerMap s) (created s) s ++ wiring).
  split_and!.
  - simpl. rewrite (calls_assemble _ _ s s) by apply same_input_refl.
    by rewrite app_assoc.
  - simpl. apply created_assemble, same_input_refl.
  - rewrite filter_app, creates_of_pass1_calls.
    rewrite (filter_none _ wiring); [by rewrite app_nil_r|].
    eapply Forall_impl; [exact Hwiring|].
    intros call [Hc|Hc]; destruct call; done.
Qed.

(** ** Empty middleware lists *)

Lemma pass1_calls_route_middleware app l n s :
  Forall carries_route_middleware (pass1_calls app l n s).
Proof.
  revert n. induction l as [|e l IH]; intros n; simpl; [apply Forall_nil_2|].
  apply Forall_app. split; [|apply IH].
  unfold controller_calls.
  destruct (JsMap.get e.1 (routeMap s)) as [[|x rs]|];
    try apply Forall_nil_2.
  apply Forall_cons. split; [done|].
  unfold assembly_calls. rewrite !Forall_app. split_and!.
  - unfold controllerMiddleware_calls.
    destruct (JsMap.get e.1 (controllerMiddlewareMap s));
      [by apply Forall_singleton | apply Forall_nil_2].
  - unfold routes_calls. apply Forall_flat_map, Forall_forall.
    intros [m hms] _. unfold method_calls.
    apply Forall_flat_map, Forall_forall. intros [p h] _.
    unfold handler_calls, routeMiddleware_calls. simpl.
    apply Forall_app. split; [|by apply Forall_singleton].
    destruct (JsMap.get h (routeMiddlewareMap s)) as [[|y mw]|];
      [apply Forall_nil_2 | by apply Forall_singleton | apply Forall_nil_2].
  - unfold mount_calls. destruct (JsMap.has e.1 (parentMap s));
      [apply Forall_nil_2 | by apply Forall_singleton].
Qed.

Lemma processParents_middleware child parent s :
  exists cs,
    (processParents child parent s).2 = emit cs s
    /\ Forall carries_middleware cs.
Proof.
  unfold processParents, bind, gets, throw.
  destruct (JsMap.get parent (routerMap s)) as [pr|];
    [|exists []; by rewrite emit_nil].
  destruct (JsMap.get child (routerMap s)) as [cr|];
    [|exists []; by rewrite emit_nil].
  destruct (JsMap.get parent (controllerMiddlewareMap s)) as [[|x mw]|],
    (JsMap.get child (controllerMap s)) as [cs|];
    unfold ret, host, modify; simpl.
  all: try (eexists [_]; split;
            [reflexivity | by apply Forall_singleton]).
  all: try (exists []; by rewrite emit_nil).
  eexists [_; _]. rewrite emit_emit. split; [reflexivity|].
  apply Forall_cons; split; [done|]. by apply Forall_singleton.
Qed.

Lemma forOf_wire_middleware l s :
  exists cs,
    (forOf l wire s).2 = emit cs s /\ Forall carries_middleware cs.
Proof.
  revert s. induction l as [|[c p] l IH]; intros s; simpl.
  - exists []. by rewrite emit_nil.
  - unfold bind, wire at 1. simpl.
    destruct (processParents_middleware c p s) as (cs & Hs & Hcs).
    destruct (processParents c p s) as [[[]|e] s']; simpl in Hs; subst s'.
    + destruct (IH (emit cs s)) as (cs' & Hs' & Hcs').
      exists (cs ++ cs'). rewrite Hs', emit_emit. split; [done|].
      by apply Forall_app.
    + by exists cs.
Qed.

(** X4: [applyRoutes] never registers an empty list of route middleware
    (a handler whose entry is empty gets no path-scoped registration),
    and Pass 2 never registers an empty list of parent middleware. *)
Theorem X4_no_empty_route_or_parent_middleware app s :
  exists pass1_emitted pass2_emitted,
    calls (exec (pass1 app) s) = calls s ++ pass1_emitted
    /\ calls (exec (applyRoutes app) s)
       = calls s ++ pass1_emitted ++ pass2_emitted
    /\ Forall carries_route_middleware pass1_emitted
    /\ Forall carries_middleware pass2_emitted.
Proof.
  unfold exec. rewrite applyRoutes_run, pass1_run.
  destruct (forOf_wire_middleware (parentMap s)
              (assemble app (controllerMap s) s)) as (wiring & -> & Hwiring).
  exists (pass1_calls app (controllerMap s) (created s) s), wiring.
  simpl. rewrite (calls_assemble _ _ s s) by apply same_input_refl.
  split_and!; [done | by rewrite app_assoc | | done].
  apply pass1_calls_route_middleware.
Qed.

(** ** Registration: lookups and order *)

(** X5: after [addRoute] under a method name that is not one every object
    inherits, the route just registered is found with its handler, and
    every other route of every controller is as it was. *)
Theorem X5_addRoute_lookup c m p h s c' m' p' :
  m ∉ Object_prototype ->
  route_of c' m' p' (exec (addRoute c m p h) s)
  = if decide (c' = c /\ m' = m /\ p' = p) then Some h
    else route_of c' m' p' s.
Proof.
  intros Hmethod.
  unfold exec. rewrite addRoute_run by done. unfold route_of, put_route. simpl.
  case_decide as Hk.
  - destruct Hk as (-> & -> & ->). by rewrite !get_set_eq.
  - destruct (decide (c = c')) as [<-|Hc]; [|by rewrite get_set_ne].
    rewrite get_set_eq.
    destruct (decide (m = m')) as [<-|Hm].
    + rewrite get_set_eq.
      assert (p <> p') by (intros ->; apply Hk; done).
      rewrite get_set_ne by done.
      destruct (JsMap.get c (routeMap s)) as [rs|]; simpl; [|done].
      by destruct (JsMap.get m rs).
    + rewrite get_set_ne by done.
      by destruct (JsMap.get c (routeMap s)).
Qed.

Lemma X5_addRoute_lookup_witness :
  route_of 1 "get" (PathStr "/x")
    (exec (addRoute 1 "get" (PathStr "/x") 12) (exec demo initial))
  = Some 12.
Proof.
  apply (X5_addRoute_lookup 1 "get" (PathStr "/x") 12 (exec demo initial)
           1 "get" (PathStr "/x")).
  by_compute.
Defined.

(** X6: registrations that write different tables commute: the order in
    which decorators of different kinds run leaves the same registry.
    (The method name of a route is not one every object inherits: a
    registration that throws keeps the later one from running.) *)
Theorem X6_registrations_of_different_kinds_commute r1 r2 s :
  own_method r1 -> own_method r2 ->
  table_of r1 <> table_of r2 ->
  (register r1 ;; register r2) s = (register r2 ;; register r1) s.
Proof.
  intros Hr1 Hr2 Hne. unfold bind.
  destruct r1, r2; simpl in *; try done; by rewrite ?addRoute_run by done.
Qed.

Lemma X6_registrations_of_different_kinds_commute_witness :
  (register (RegParent 2 1) ;; register (RegRoute 2 "get" (PathStr "/y") 11))
    (exec declared_only initial)
  = (register (RegRoute 2 "get" (PathStr "/y") 11) ;; register (RegParent 2 1))
      (exec declared_only initial).
Proof.
  apply (X6_registrations_of_different_kinds_commute (RegParent 2 1)
           (RegRoute 2 "get" (PathStr "/y") 11) (exec declared_only initial)).
  - exact I.
  - by_compute.
  - simpl. discriminate.
Defined.

(** ** Routes of a class that is not a controller *)

(** Pass 1 reads the route table only at the controllers it goes through,
    and makes no difference between an empty route spec and none. *)
Lemma after_controller_routeMap app c spec (rm : JsMap.t Ctrl RouteSpec) s :
  default JsMap.empty (JsMap.get c rm)
  = default JsMap.empty (JsMap.get c (routeMap s)) ->
  after_controller app c spec (with_routeMap (fun _ => rm) s)
  = with_routeMap (fun _ => rm) (after_controller app c spec s).
Proof.
  unfold after_controller, assembles, controller_calls, with_routeMap.
  cbn.
  destruct (JsMap.get c rm) as [[|e rs]|],
    (JsMap.get c (routeMap s)) as [[|e' rs']|]; cbn; try done.
  by intros [= -> ->].
Qed.

Lemma assemble_routeMap app l (rm : JsMap.t Ctrl RouteSpec) s :
  (forall c, c ∈ l.*1 ->
     default JsMap.empty (JsMap.get c rm)
     = default JsMap.empty (JsMap.get c (routeMap s))) ->
  assemble app l (with_routeMap (fun _ => rm) s)
  = with_routeMap (fun _ => rm) (assemble app l s).
Proof.
  revert s. induction l as [|e l IH]; intros s Hsame; simpl; [done|].
  rewrite after_controller_routeMap
    by (apply Hsame; rewrite fmap_cons; apply elem_of_cons; by left).
  apply IH. intros c Hc.
  destruct (same_input_after_controller app e.1 e.2 s) as [<- _].
  apply Hsame. rewrite fmap_cons. apply elem_of_cons. by right.
Qed.

Lemma get_put_route_ne t m p h rm c :
  c <> t -> JsMap.get c (put_route t m p h rm) = JsMap.get c rm.
Proof. intros Hne. unfold put_route. by rewrite get_set_ne. Qed.

Lemma get_open_routes_ne t rm c :
  c <> t -> JsMap.get c (open_routes t rm) = JsMap.get c rm.
Proof.
  intros Hne. unfold open_routes.
  destruct (JsMap.get t rm); [done|]. by rewrite get_set_ne.
Qed.

(** Whether it returns or throws, [addRoute] changes the route specs of
    its class only. *)
Lemma addRoute_state c m p h s :
  exists rm,
    (addRoute c m p h s).2 = with_routeMap (fun _ => rm) s
    /\ forall c', c' <> c -> JsMap.get c' rm = JsMap.get c' (routeMap s).
Proof.
  rewrite addRoute_cases.
  destruct (method_property c m s);
    [ exists (put_route c m p h (routeMap s))
    | exists (open_routes c (routeMap s))
    | exists (put_route c m p h (routeMap s)) ];
    (split; [done|]); intros c' Hne;
    first [by apply get_put_route_ne | by apply get_open_routes_ne].
Qed.

Lemma processParents_with_routeMap f child parent s :
  processParents child parent (with_routeMap f s)
  = ((processParents child parent s).1,
     with_routeMap f (processParents child parent s).2).
Proof.
  unfold processParents, bind, gets, throw, with_routeMap. cbn.
  destruct (JsMap.get parent (routerMap s)) as [pr|]; cbn; [|done].
  destruct (JsMap.get child (routerMap s)) as [cr|]; cbn; [|done].
  destruct (JsMap.get parent (controllerMiddlewareMap s)) as [[|x mw]|],
    (JsMap.get child (controllerMap s)) as [cs|]; done.
Qed.

Lemma forOf_wire_with_routeMap f l s :
  forOf l wire (with_routeMap f s)
  = ((forOf l wire s).1, with_routeMap f (forOf l wire s).2).
Proof.
  revert s. induction l as [|[child parent] l IH]; intros s; [done|].
  cbn [forOf]. unfold bind.
  change (wire (child, parent)) with (processParents child parent).
  rewrite processParents_with_routeMap.
  destruct (processParents child parent s) as [[[]|e] s']; simpl; [|done].
  apply IH.
Qed.

(** X7: a route that the [Method] decorator registers on a class never
    declared a controller has no effect on [applyRoutes]: same outcome,
    same calls on the host, same routers, whatever the method name, the
    property key and the handler, and whether the decorator returned or
    threw. *)
Theorem X7_route_of_undeclared_class_ignored app s target m p key d :
  JsMap.get target (controllerMap s) = None ->
  outcome (applyRoutes app) (exec (Method m p target key d) s)
  = outcome (applyRoutes app) s
  /\ calls (exec (applyRoutes app) (exec (Method m p target key d) s))
     = calls (exec (applyRoutes app) s)
  /\ routerMap (exec (applyRoutes app) (exec (Method m p target key d) s))
     = routerMap (exec (applyRoutes app) s)
  /\ created (exec (applyRoutes app) (exec (Method m p target key d) s))
     = created (exec (applyRoutes app) s).
Proof.
  intros Hundeclared. unfold exec, outcome, Method.
  destruct (addRoute_state target m p (value d) s) as (rm & -> & Hrm).
  rewrite !applyRoutes_run.
  set (f := fun _ : JsMap.t Ctrl RouteSpec => rm).
  change (parentMap (with_routeMap f s)) with (parentMap s).
  change (controllerMap (with_routeMap f s)) with (controllerMap s).
  unfold f. rewrite assemble_routeMap.
  - by rewrite forOf_wire_with_routeMap.
  - intros c Hc. rewrite Hrm; [done|]. intros ->.
    by apply get_None_keys in Hundeclared.
Qed.

Lemma X7_route_of_undeclared_class_ignored_witness :
  outcome (applyRoutes (External 0))
    (exec (Method "get" (PathStr "/z") 8 "index" (mkPropertyDescriptor 16))
       (exec demo initial))
  = outcome (applyRoutes (External 0)) (exec demo initial)
  /\ calls (exec (applyRoutes (External 0))
              (exec (Method "get" (PathStr "/z") 8 "index"
                       (mkPropertyDescriptor 16)) (exec demo initial)))
     = calls (exec (applyRoutes (External 0)) (exec demo initial))
  /\ routerMap (exec (applyRoutes (External 0))
                  (exec (Method "get" (PathStr "/z") 8 "index"
                           (mkPropertyDescriptor 16)) (exec demo initial)))
     = routerMap (exec (applyRoutes (External 0)) (exec demo initial))
  /\ created (exec (applyRoutes (External 0))
                (exec (Method "get" (PathStr "/z") 8 "index"
                         (mkPropertyDescriptor 16)) (exec demo initial)))
     = created (exec (applyRoutes (External 0)) (exec demo initial)).
Proof.
  apply (X7_route_of_undeclared_class_ignored (External 0) (exec demo initial)
           8 "get" (PathStr "/z") "index" (mkPropertyDescriptor 16)).
  vm_compute; reflexivity.
Defined.

(** ** A method name that the route spec inherits *)

Lemma method_property_inherited c m s :
  m ∈ Object_prototype -> method_spec c m s = None ->
  method_property c m s = Inherited.
Proof.
  unfold method_spec, method_property. intros Hm Hspec.
  apply getProperty_inherited; [|done].
  by destruct (JsMap.get c (routeMap s)).
Qed.

Lemma default_open_routes c rm c' :
  default JsMap.empty (JsMap.get c' (open_routes c rm))
  = default JsMap.empty (JsMap.get c' rm).
Proof.
  unfold open_routes. destruct (JsMap.get c rm) eqn:Hc; [done|].
  destruct (decide (c = c')) as [<-|Hne].
  - by rewrite get_set_eq, Hc.
  - by rewrite get_set_ne.
Qed.

(** X15: [addRoute] under a method name that every object inherits, for a
    class that has no route of its own under that name, throws the
    runtime's type error.  It registers nothing: every route of every
    controller is as it was.  It leaves the class with a route spec (an
    empty one if the class had none), and [applyRoutes] then does what it
    does without it: an empty route spec is skipped as a missing one
    is. *)
Theorem X15_addRoute_inherited_method_name app c m p h s :
  m ∈ Object_prototype ->
  method_spec c m s = None ->
  outcome (addRoute c m p h) s = Throw TypeError
  /\ JsMap.get c (routeMap (exec (addRoute c m p h) s))
     = Some (default JsMap.empty (JsMap.get c (routeMap s)))
  /\ (forall c' m' p',
        route_of c' m' p' (exec (addRoute c m p h) s) = route_of c' m' p' s)
  /\ outcome (applyRoutes app) (exec (addRoute c m p h) s)
     = outcome (applyRoutes app) s
  /\ calls (exec (applyRoutes app) (exec (addRoute c m p h) s))
     = calls (exec (applyRoutes app) s)
  /\ routerMap (exec (applyRoutes app) (exec (addRoute c m p h) s))
     = routerMap (exec (applyRoutes app) s).
Proof.
  intros Hm Hspec. unfold exec, outcome.
  rewrite (addRoute_throws c m p h s) by (by apply method_property_inherited).
  cbn [fst snd]. split_and!.
  - done.
  - unfold open_routes. simpl.
    destruct (JsMap.get c (routeMap s)) eqn:Hc; simpl; [done|].
    apply get_set_eq.
  - intros c' m' p'. unfold route_of, open_routes. simpl.
    destruct (JsMap.get c (routeMap s)) eqn:Hc; [done|].
    destruct (decide (c = c')) as [<-|Hne].
    + by rewrite get_set_eq, Hc.
    + by rewrite get_set_ne.
  - rewrite !applyRoutes_run.
    change (with_routeMap (open_routes c) s)
      with (with_routeMap (fun _ => open_routes c (routeMap s)) s).
    cbn [parentMap controllerMap with_routeMap].
    rewrite assemble_routeMap by (intros; apply default_open_routes).
    by rewrite forOf_wire_with_routeMap.
  - rewrite !applyRoutes_run.
    change (with_routeMap (open_routes c) s)
      with (with_routeMap (fun _ => open_routes c (routeMap s)) s).
    cbn [parentMap controllerMap with_routeMap].
    rewrite assemble_routeMap by (intros; apply default_open_routes).
    by rewrite forOf_wire_with_routeMap.
  - rewrite !applyRoutes_run.
    change (with_routeMap (open_routes c) s)
      with (with_routeMap (fun _ => open_routes c (routeMap s)) s).
    cbn [parentMap controllerMap with_routeMap].
    rewrite assemble_routeMap by (intros; apply default_open_routes).
    by rewrite forOf_wire_with_routeMap.
Qed.

Lemma X15_addRoute_inherited_method_name_witness :
  outcome (addRoute 7 "toString" (PathStr "/t") 19)
    (exec routeless_child initial) = Throw TypeError
  /\ JsMap.get 7
       (routeMap (exec (addRoute 7 "toString" (PathStr "/t") 19)
                    (exec routeless_child initial)))
     = Some []
  /\ calls (exec (applyRoutes (External 0))
              (exec (addRoute 7 "toString" (PathStr "/t") 19)
                 (exec routeless_child initial)))
     = calls (exec (applyRoutes (External 0)) (exec routeless_child initial)).
Proof.
  assert (Hm : "toString" ∈ Object_prototype) by by_compute.
  pose proof (X15_addRoute_inherited_method_name (External 0) 7 "toString"
                (PathStr "/t") 19 (exec routeless_child initial) Hm eq_refl)
    as (H1 & H2 & _ & _ & H5 & _).
  split_and!; [exact H1 | exact H2 | exact H5].
Defined.

(** ** Invariants of the registry *)

Lemma registry_inv_same s s' :
  same_registry s s' -> registry_inv s -> registry_inv s'.
Proof.
  intros ((H1 & H2 & H3 & H4 & H5) & H6 & H7) [[Hr Hc Hcm Hrm Hrt Hp] Hf Hi].
  split; [split|..]; rewrite <- ?H1, <- ?H2, <- ?H3, <- ?H4, <- ?H5, <- ?H6,
    <- ?H7; done.
Qed.

Lemma registry_inv_after_controller app c spec s :
  registry_inv s -> registry_inv (after_controller app c spec s).
Proof.
  intros [[Hr Hc Hcm Hrm Hrt Hp] Hf Hi].
  unfold after_controller. destruct (assembles c s); [|done].
  split; [split; simpl; try done; by apply wf_set|..]; simpl.
  - intros c' r. destruct (decide (c = c')) as [<-|Hne].
    + rewrite get_set_eq. intros [= <-]. eexists; split; [done|lia].
    + rewrite get_set_ne by done. intros Hget.
      destruct (Hf c' r Hget) as (n & -> & Hn). eexists; split; [done|lia].
  - assert (Hnew : forall c', JsMap.get c' (routerMap s)
                               <> Some (Created (created s))).
    { intros c' Hget. destruct (Hf c' _ Hget) as (n & [= <-] & Hn). lia. }
    intros c1 c2 r.
    destruct (decide (c = c1)) as [<-|Hne1], (decide (c = c2)) as [<-|Hne2];
      rewrite ?get_set_eq, ?get_set_ne by done; try done.
    + intros [= <-] Hget. by apply Hnew in Hget.
    + intros Hget [= <-]. by apply Hnew in Hget.
    + apply Hi.
Qed.

Lemma registry_inv_assemble app l s :
  registry_inv s -> registry_inv (assemble app l s).
Proof.
  revert s. induction l as [|e l IH]; intros s Hs; simpl; [done|].
  by apply IH, registry_inv_after_controller.
Qed.

Lemma registry_inv_register r s :
  registry_inv s -> registry_inv (exec (register r) s).
Proof.
  intros [Hwf Hf Hi].
  split; [by apply wf_state_register|..]; unfold exec;
    destruct r; simpl; rewrite ?addRoute_cases;
    try destruct (method_property _ _ _); done.
Qed.

(** X8: in every state the module can reach, each of the six tables has
    one entry per key at most, every router in the router table is one
    the host created before, and no two controllers share a router. *)
Theorem X8_reachable_registry_invariants s :
  reachable s ->
  wf_state s
  /\ (forall c r, JsMap.get c (routerMap s) = Some r ->
        exists n, r = Created n /\ n < created s)
  /\ (forall c c' r,
        JsMap.get c (routerMap s) = Some r ->
        JsMap.get c' (routerMap s) = Some r -> c = c').
Proof.
  intros Hs. cut (registry_inv s); [by intros [? ? ?]|].
  induction Hs as [|r s _ IH|s _ IH|app s _ IH|app c spec s _ IH Hin
                  |child parent s _ IH Hin].
  - split; [apply wf_state_initial | done | done].
  - by apply registry_inv_register.
  - split; [|done|done]. split; try apply wf_empty. apply wf_routes_nil.
  - unfold exec. rewrite applyRoutes_run.
    eapply registry_inv_same; [apply forOf_wire_registry|].
    by apply registry_inv_assemble.
  - unfold exec. rewrite processController_run.
    by apply registry_inv_after_controller.
  - unfold exec.
    destruct (processParents_calls child parent s) as (cs & -> & _).
    by eapply registry_inv_same; [apply same_registry_emit|].
Qed.

Lemma X8_reachable_registry_invariants_witness :
  wf_state (exec (applyRoutes (External 0)) (registered demo_script initial))
  /\ (forall c r,
        JsMap.get c
          (routerMap
             (exec (applyRoutes (External 0)) (registered demo_script initial)))
        = Some r ->
        exists n, r = Created n
          /\ n < created (exec (applyRoutes (External 0))
                        (registered demo_script initial)))
  /\ (forall c c' r,
        JsMap.get c
          (routerMap
             (exec (applyRoutes (External 0)) (registered demo_script initial)))
        = Some r ->
        JsMap.get c'
          (routerMap
             (exec (applyRoutes (External 0)) (registered demo_script initial)))
        = Some r -> c = c').
Proof.
  apply (X8_reachable_registry_invariants
           (exec (applyRoutes (External 0)) (registered demo_script initial))).
  apply reach_applyRoutes, reachable_registered, reach_initial.
Defined.

(** ** What the application receives *)

Lemma routers_created_assemble app l s :
  routers_created s -> routers_created (assemble app l s).
Proof.
  revert s. induction l as [|e l IH]; intros s Hs; simpl; [done|].
  apply IH. intros c r. rewrite routerMap_after_controller.
  destruct (bool_decide (c = e.1) && assembles e.1 s); [|apply Hs].
  intros [= <-]. by eexists.
Qed.

Lemma processParents_receivers child parent s :
  routers_created s ->
  exists cs,
    (processParents child parent s).2 = emit cs s
    /\ Forall (fun call => forall x, receiver call <> Some (External x)) cs.
Proof.
  intros Hs. unfold processParents, bind, gets, throw.
  destruct (JsMap.get parent (routerMap s)) as [pr|] eqn:Hp;
    [|exists []; by rewrite emit_nil].
  destruct (JsMap.get child (routerMap s)) as [cr|] eqn:Hc;
    [|exists []; by rewrite emit_nil].
  destruct (Hs parent pr Hp) as [n ->], (Hs child cr Hc) as [n' ->].
  destruct (JsMap.get parent (controllerMiddlewareMap s)) as [[|x mw]|],
    (JsMap.get child (controllerMap s)) as [cs|];
    unfold ret, host, modify; simpl.
  all: try (eexists [_]; split;
            [reflexivity | by apply Forall_singleton]).
  all: try (exists []; by rewrite emit_nil).
  eexists [_; _]. rewrite emit_emit. split; [reflexivity|].
  apply Forall_cons; split; [done|]. by apply Forall_singleton.
Qed.

Lemma forOf_wire_receivers l s :
  routers_created s ->
  exists cs,
    (forOf l wire s).2 = emit cs s
    /\ Forall (fun call => forall x, receiver call <> Some (External x)) cs.
Proof.
  revert s. induction l as [|[c p] l IH]; intros s Hinv; simpl.
  - exists []. by rewrite emit_nil.
  - unfold bind, wire at 1. simpl.
    destruct (processParents_receivers c p s Hinv) as (cs & Hs & Hcs).
    destruct (processParents c p s) as [[[]|e] s']; simpl in Hs; subst s'.
    + destruct (IH (emit cs s)) as (cs' & Hs' & Hcs'); [done|].
      exists (cs ++ cs'). rewrite Hs', emit_emit. split; [done|].
      by apply Forall_app.
    + by exists cs.
Qed.

Lemma app_stack_controller_calls a c spec n s :
  stack_of (External a) (controller_calls (External a) c spec n s)
  = if decide (assembles c s = true /\ JsMap.get c (parentMap s) = None)
    then [Mount (External a) (root spec) (Created n)] else [].
Proof.
  unfold controller_calls, assembles, stack_of.
  destruct (JsMap.get c (routeMap s)) as [[|e rs]|];
    try (rewrite decide_False by (by intros [? _]); done).
  rewrite filter_cons_False by done.
  unfold assembly_calls. rewrite !filter_app.
  rewrite (filter_none _ (controllerMiddleware_calls _ _ _)).
  2:{ unfold controllerMiddleware_calls.
      destruct (JsMap.get c (controllerMiddlewareMap s));
        [by apply Forall_singleton | apply Forall_nil_2]. }
  rewrite (filter_none _ (routes_calls _ _ _))
    by (by apply routes_calls_Forall).
  unfold mount_calls, JsMap.has. simpl.
  destruct (JsMap.get c (parentMap s)).
  - by rewrite decide_False by (by intros [_ ?]).
  - rewrite decide_True by done. by rewrite filter_cons_True.
Qed.

(** What Pass 1 calls on the application: for each entry with routes and
    no parent entry, the mount of the router it records for that entry. *)
Lemma app_stack_pass1_calls a l s0 s :
  NoDup l.*1 -> same_input s0 s ->
  Forall2
    (fun call e =>
       exists r,
         JsMap.get e.1 (routerMap (assemble (External a) l s)) = Some r
         /\ call = Mount (External a) (root e.2) r)
    (stack_of (External a) (pass1_calls (External a) l (created s) s0))
    (filter (fun e => assembles e.1 s0 = true
                      /\ JsMap.get e.1 (parentMap s0) = None) l).
Proof.
  revert s. induction l as [|e l IH]; intros s Hnd Hs; [apply Forall2_nil_2|].
  rewrite fmap_cons in Hnd. apply NoDup_cons in Hnd as [Hfresh Hnd].
  assert (Hs' : same_input s0 (after_controller (External a) e.1 e.2 s)).
  { eapply same_input_trans; [exact Hs | apply same_input_after_controller]. }
  specialize (IH _ Hnd Hs').
  rewrite created_after_controller, (assembles_same s0 s) in IH by done.
  cbn [pass1_calls assemble]. unfold stack_of. rewrite filter_app.
  fold (stack_of (External a)
          (controller_calls (External a) e.1 e.2 (created s) s0)).
  fold (stack_of (External a)
          (pass1_calls (External a) l
             (if assembles e.1 s0 then S (created s) else created s) s0)).
  rewrite app_stack_controller_calls, filter_cons.
  destruct (decide (assembles e.1 s0 = true
                    /\ JsMap.get e.1 (parentMap s0) = None)) as [[Hasm Hp]|];
    [|exact IH].
  apply Forall2_cons; split; [|exact IH]. cbv beta.
  exists (Created (created s)). split; [|done].
  change (assemble (External a) (e :: l) s)
    with (assemble (External a) l (after_controller (External a) e.1 e.2 s)).
  rewrite routerMap_assemble_other by done.
  rewrite routerMap_after_controller, bool_decide_true by done.
  by rewrite (assembles_same s0 s), Hasm.
Qed.

(** X9: when the router table holds only routers the host created, the
    application receives from [applyRoutes] one mount for each controller
    that has routes and no parent entry, of the router that [applyRoutes]
    records for that controller, at that controller's root path and in
    the order of the controller table, and no other call: no middleware
    and no handler is registered on the application, and Pass 2 mounts
    nothing on it. *)
Theorem X9_application_receives_root_mounts a s :
  JsMap.wf (controllerMap s) ->
  routers_created s ->
  exists emitted,
    calls (exec (applyRoutes (External a)) s) = calls s ++ emitted
    /\ Forall2
         (fun call e =>
            exists r,
              JsMap.get e.1 (routerMap (exec (applyRoutes (External a)) s))
              = Some r
              /\ call = Mount (External a) (root e.2) r)
         (stack_of (External a) emitted) (root_entries s).
Proof.
  intros Hwf Hs. unfold exec. rewrite applyRoutes_run.
  pose proof (forOf_wire_registry (parentMap s)
                (assemble (External a) (controllerMap s) s)) as (_ & Hrm & _).
  destruct (forOf_wire_receivers (parentMap s)
              (assemble (External a) (controllerMap s) s))
    as (wiring & Hrun & Hwiring); [by apply routers_created_assemble|].
  rewrite <- Hrm, Hrun.
  exists (pass1_calls (External a) (controllerMap s) (created s) s ++ wiring).
  split.
  - simpl. rewrite (calls_assemble _ _ s s) by apply same_input_refl.
    by rewrite app_assoc.
  - unfold stack_of. rewrite filter_app.
    fold (stack_of (External a)
            (pass1_calls (External a) (controllerMap s) (created s) s)).
    rewrite (filter_none _ wiring), app_nil_r.
    + apply app_stack_pass1_calls; [exact Hwf | apply same_input_refl].
    + eapply Forall_impl; [exact Hwiring|]. intros call Hcall. apply Hcall.
Qed.

Lemma X9_application_receives_root_mounts_witness :
  exists emitted,
    calls (exec (applyRoutes (External 0)) (exec demo initial))
    = calls (exec demo initial) ++ emitted
    /\ Forall2
         (fun call e =>
            exists r,
              JsMap.get e.1
                (routerMap (exec (applyRoutes (External 0))
                              (exec demo initial)))
              = Some r
              /\ call = Mount (External 0) (root e.2) r)
         (stack_of (External 0) emitted) (root_entries (exec demo initial)).
Proof.
  apply (X9_application_receives_root_mounts 0 (exec demo initial)).
  - by_compute.
  - intros c r Hget. vm_compute in Hget. discriminate Hget.
Defined.

(** ** [applyRoutes] a second time, without [reset] *)

Lemma controller_calls_shift k a c spec n s :
  controller_calls (External a) c spec (k + n) s
  = shift_call k <$> controller_calls (External a) c spec n s.
Proof.
  rewrite <- (controller_calls_relocate k [] a c spec n s).
  symmetry. apply controller_calls_same. by repeat split.
Qed.

Lemma pass1_calls_shift k a l n s :
  pass1_calls (External a) l (k + n) s
  = shift_call k <$> pass1_calls (External a) l n s.
Proof.
  revert n. induction l as [|e l IH]; intros n; simpl; [done|].
  rewrite fmap_app, controller_calls_shift. f_equal.
  destruct (assembles e.1 s); [|apply IH].
  rewrite <- Nat.add_succ_r. apply IH.
Qed.

(** Routers of a later run stand for those of an earlier one, wherever
    the earlier run recorded a router or the loop still has to. *)
Lemma routerMap_assemble_shift k a l s0 s s' :
  same_input s0 s -> same_input s0 s' ->
  created s' = k + created s ->
  (forall c,
     JsMap.get c (routerMap s') = shift_router k <$> JsMap.get c (routerMap s)
     \/ (assembles c s0 = true /\ c ∈ l.*1)) ->
  forall c,
    JsMap.get c (routerMap (assemble (External a) l s'))
    = shift_router k <$> JsMap.get c (routerMap (assemble (External a) l s)).
Proof.
  revert s s'. induction l as [|e l IH]; intros s s' Hs Hs' Hk Hrel c.
  { simpl. destruct (Hrel c) as [?|[_ Hin]]; [done|].
    by apply elem_of_nil in Hin. }
  simpl. apply IH.
  - eapply same_input_trans; [exact Hs | apply same_input_after_controller].
  - eapply same_input_trans; [exact Hs' | apply same_input_after_controller].
  - rewrite !created_after_controller.
    rewrite (assembles_same s0 s e.1 Hs), (assembles_same s0 s' e.1 Hs').
    destruct (assembles e.1 s0); lia.
  - intros c'. rewrite !routerMap_after_controller.
    rewrite (assembles_same s0 s e.1 Hs), (assembles_same s0 s' e.1 Hs').
    case_bool_decide as Heq; simpl.
    + subst c'. destruct (assembles e.1 s0) eqn:Hasm.
      * left. simpl. by rewrite Hk.
      * destruct (Hrel e.1) as [?|[? _]]; [by left | congruence].
    + destruct (Hrel c') as [?|[? Hin]]; [by left | right].
      split; [done|]. rewrite fmap_cons in Hin.
      apply elem_of_cons in Hin as [?|?]; done.
Qed.

Lemma processParents_shift k child parent t t' :
  controllerMap t' = controllerMap t ->
  controllerMiddlewareMap t' = controllerMiddlewareMap t ->
  (forall c, JsMap.get c (routerMap t')
             = shift_router k <$> JsMap.get c (routerMap t)) ->
  exists r cs,
    processParents child parent t = (r, emit cs t)
    /\ processParents child parent t' = (r, emit (shift_call k <$> cs) t').
Proof.
  intros Hcm Hcmm Hrel. unfold processParents, bind, gets, throw. cbn.
  rewrite ?Hrel.
  destruct (JsMap.get parent (routerMap t)) as [pr|]; cbn; rewrite ?Hrel;
    [|exists (Throw (ParentControllerError child parent)), [];
      by rewrite !emit_nil].
  destruct (JsMap.get child (routerMap t)) as [cr|]; cbn;
    rewrite ?Hcm, ?Hcmm;
    [|exists (Throw (UnregisteredControllerError child)), [];
      by rewrite !emit_nil].
  destruct (JsMap.get parent (controllerMiddlewareMap t)) as [[|x mw]|],
    (JsMap.get child (controllerMap t)) as [cs|];
    unfold ret, host, modify; cbn; rewrite ?emit_emit.
  all: first
    [ by (exists (Ok tt), [Mount pr (root cs) cr])
    | by (exists (Throw TypeError), []; rewrite !emit_nil)
    | by (exists (Ok tt), [Use cr (x :: mw); Mount pr (root cs) cr])
    | by (exists (Throw TypeError), [Use cr (x :: mw)]) ].
Qed.

Lemma forOf_wire_shift k l t t' :
  controllerMap t' = controllerMap t ->
  controllerMiddlewareMap t' = controllerMiddlewareMap t ->
  (forall c, JsMap.get c (routerMap t')
             = shift_router k <$> JsMap.get c (routerMap t)) ->
  exists r cs,
    forOf l wire t = (r, emit cs t)
    /\ forOf l wire t' = (r, emit (shift_call k <$> cs) t').
Proof.
  revert t t'. induction l as [|[c p] l IH]; intros t t' Hcm Hcmm Hrel.
  { exists (Ok tt), []. simpl. unfold ret. by rewrite !emit_nil. }
  cbn [forOf]. unfold bind.
  change (wire (c, p)) with (processParents c p).
  destruct (processParents_shift k c p t t' Hcm Hcmm Hrel)
    as (r & cs & -> & ->).
  destruct r as [[]|e]; [|by exists (Throw e), cs].
  destruct (IH (emit cs t) (emit (shift_call k <$> cs) t') Hcm Hcmm Hrel)
    as (r' & cs' & -> & ->).
  exists r', (cs ++ cs'). by rewrite fmap_app, !emit_emit.
Qed.

(** X10: when [applyRoutes] is called again without a [reset] in between,
    on a registry that had no routers before the first call, the second
    call has the outcome of the first and repeats every call of the first
    on newly created routers: each controller gets a second router, and
    the application gets every root mounted a second time. *)
Theorem X10_applyRoutes_again_repeats_all_calls a s :
  routerMap s = [] ->
  exists emitted,
    calls (exec (applyRoutes (External a)) s) = calls s ++ emitted
    /\ outcome (applyRoutes (External a)) (exec (applyRoutes (External a)) s)
       = outcome (applyRoutes (External a)) s
    /\ calls (exec (applyRoutes (External a))
                (exec (applyRoutes (External a)) s))
       = calls s ++ emitted
         ++ (shift_call (length (assembled_entries s)) <$> emitted).
Proof.
  intros Hfresh. unfold exec, outcome.
  set (k := length (assembled_entries s)).
  rewrite (applyRoutes_run _ s).
  set (t := assemble (External a) (controllerMap s) s).
  destruct (forOf_wire_calls (parentMap s) t) as (wiring & Hs1 & _).
  destruct (forOf (parentMap s) wire t) as [r1 s1] eqn:Hrun1.
  simpl in Hs1. subst s1. simpl.
  rewrite applyRoutes_run.
  change (parentMap (emit wiring t)) with (parentMap t).
  change (controllerMap (emit wiring t)) with (controllerMap t).
  destruct (same_input_assemble (External a) (controllerMap s) s)
    as (Hi1 & Hi2 & Hi3 & Hi4 & Hi5).
  fold t in Hi1, Hi2, Hi3, Hi4, Hi5. rewrite <- Hi2, <- Hi5.
  set (t' := assemble (External a) (controllerMap s) (emit wiring t)).
  assert (Hin : same_input s (emit wiring t)) by (by repeat split).
  assert (Hrel : forall c, JsMap.get c (routerMap t')
                           = shift_router k <$> JsMap.get c (routerMap t)).
  { apply (routerMap_assemble_shift k a (controllerMap s) s s
             (emit wiring t) (same_input_refl s) Hin).
    - simpl. unfold t. rewrite (created_assemble _ _ s s)
        by apply same_input_refl.
      apply Nat.add_comm.
    - intros c. simpl. rewrite Hfresh. simpl.
      destruct (JsMap.get c (routerMap t)) eqn:Hget; [right | by left].
      assert (Hsome : is_Some (JsMap.get c (routerMap t))) by (by eexists).
      apply (assemble_router_iff (External a) _ s s) in Hsome;
        [|apply same_input_refl].
      rewrite Hfresh in Hsome. destruct Hsome as [[? ?]|?]; done. }
  destruct (forOf_wire_shift k (parentMap s) t t') as (r & cs & Hrun & Hrun').
  { unfold t', t.
    destruct (same_input_assemble (External a) (controllerMap s)
                (emit wiring (assemble (External a) (controllerMap s) s)))
      as (_ & <- & _). done. }
  { unfold t', t.
    destruct (same_input_assemble (External a) (controllerMap s)
                (emit wiring (assemble (External a) (controllerMap s) s)))
      as (_ & _ & <- & _). done. }
  { done. }
  rewrite Hrun in Hrun1. inversion Hrun1 as [[Hr Hemit]]. subst r.
  assert (cs = wiring) as ->.
  { by apply app_inv_head in Hemit. }
  rewrite Hrun'. simpl.
  assert (Hcalls : calls t
            = calls s ++ pass1_calls (External a) (controllerMap s)
                           (created s) s).
  { apply calls_assemble, same_input_refl. }
  assert (Hcalls' : calls t'
            = (calls t ++ wiring)
              ++ (shift_call k
                  <$> pass1_calls (External a) (controllerMap s)
                        (created s) s)).
  { unfold t'. rewrite (calls_assemble _ _ _ s) by done. simpl.
    f_equal. rewrite <- pass1_calls_shift. f_equal.
    unfold t. rewrite (created_assemble _ _ s s) by apply same_input_refl.
    apply Nat.add_comm. }
  exists (pass1_calls (External a) (controllerMap s) (created s) s ++ wiring).
  split_and!.
  - by rewrite Hcalls, app_assoc.
  - done.
  - rewrite Hcalls', Hcalls, fmap_app. by rewrite <- !app_assoc.
Qed.

Lemma X10_applyRoutes_again_repeats_all_calls_witness :
  exists emitted,
    calls (exec (applyRoutes (External 0)) (exec demo initial))
    = calls (exec demo initial) ++ emitted
    /\ outcome (applyRoutes (External 0))
         (exec (applyRoutes (External 0)) (exec demo initial))
       = outcome (applyRoutes (External 0)) (exec demo initial)
    /\ calls (exec (applyRoutes (External 0))
                (exec (applyRoutes (External 0)) (exec demo initial)))
       = calls (exec demo initial) ++ emitted
         ++ (shift_call (length (assembled_entries (exec demo initial)))
             <$> emitted).
Proof.
  apply (X10_applyRoutes_again_repeats_all_calls 0 (exec demo initial)).
  vm_compute; reflexivity.
Defined.

(** ** Every assembled controller is mounted once *)

Lemma forOf_wire_ok_calls l t :
  outcome (forOf l wire) t = Ok tt ->
  (forOf l wire t).2 = emit (flat_map (wiring_calls t) l) t.
Proof.
  revert t. induction l as [|[c p] l IH]; intros t; simpl.
  { intros _. by rewrite emit_nil. }
  unfold outcome. cbn [forOf]. unfold bind.
  change (wire (c, p)) with (processParents c p).
  unfold wiring_calls at 1. simpl.
  destruct (JsMap.get p (routerMap t)) as [pr|] eqn:Hp;
    [|by rewrite processParents_throws_parent].
  destruct (JsMap.get c (routerMap t)) as [cr|] eqn:Hc;
    [|by rewrite processParents_throws_child by (done || by eexists)].
  destruct (JsMap.get c (controllerMap t)) as [cs|] eqn:Hcs.
  - rewrite (processParents_wires c p t pr cr cs) by done.
    intros Hok. specialize (IH _ Hok). rewrite IH. by rewrite emit_emit.
  - unfold processParents, bind, gets, throw. rewrite Hp, Hc, Hcs.
    by destruct (JsMap.get p (controllerMiddlewareMap t)) as [[|x mw]|].
Qed.

Lemma mounts_of_wiring_calls t e r :
  filter (is_mount_of r) (wiring_calls t e)
  = match JsMap.get e.2 (routerMap t), JsMap.get e.1 (routerMap t),
          JsMap.get e.1 (controllerMap t) with
    | Some pr, Some cr, Some cs =>
        if decide (cr = r) then [Mount pr (root cs) cr] else []
    | _, _, _ => []
    end.
Proof.
  unfold wiring_calls.
  destruct (JsMap.get e.2 (routerMap t)) as [pr|]; [|done].
  destruct (JsMap.get e.1 (routerMap t)) as [cr|]; [|done].
  destruct (JsMap.get e.1 (controllerMap t)) as [cs|]; [|done].
  rewrite filter_app.
  rewrite (filter_none _ (parentMiddleware_calls _ _ _)).
  2:{ unfold parentMiddleware_calls.
      destruct (JsMap.get e.2 (controllerMiddlewareMap t)) as [[|x mw]|];
        [apply Forall_nil_2 | apply Forall_singleton; by intros []
        | apply Forall_nil_2]. }
  simpl. rewrite filter_cons. simpl. by repeat case_decide.
Qed.

Lemma mounts_of_wiring t (l : JsMap.t Ctrl Ctrl) c r spec :
  (forall c1 c2 x, JsMap.get c1 (routerMap t) = Some x ->
                   JsMap.get c2 (routerMap t) = Some x -> c1 = c2) ->
  JsMap.wf l ->
  JsMap.get c (routerMap t) = Some r ->
  JsMap.get c (controllerMap t) = Some spec ->
  filter (is_mount_of r) (flat_map (wiring_calls t) l)
  = match JsMap.get c l with
    | Some parent =>
        match JsMap.get parent (routerMap t) with
        | Some pr => [Mount pr (root spec) r]
        | None => []
        end
    | None => []
    end.
Proof.
  intros Hinj Hwf Hr Hspec. unfold JsMap.wf, JsMap.keys in Hwf.
  assert (Hother : forall l' : JsMap.t Ctrl Ctrl, c ∉ l'.*1 ->
            filter (is_mount_of r) (flat_map (wiring_calls t) l') = []).
  { induction l' as [|[child parent] l' IH]; intros Hc; [done|].
    rewrite fmap_cons in Hc. apply not_elem_of_cons in Hc as [Hne Hc].
    simpl. rewrite filter_app, IH, app_nil_r by done.
    rewrite mounts_of_wiring_calls. simpl.
    destruct (JsMap.get parent (routerMap t)) as [pr|]; [|done].
    destruct (JsMap.get child (routerMap t)) as [cr|] eqn:Hcr; [|done].
    destruct (JsMap.get child (controllerMap t)) as [cs|]; [|done].
    case_decide as Heq; [|done]. subst cr.
    exfalso. apply Hne. simpl. by apply (Hinj c child r). }
  induction l as [|[child parent] l IH]; [done|].
  rewrite fmap_cons in Hwf. apply NoDup_cons in Hwf as [Hfresh Hwf].
  cbn [flat_map JsMap.get]. rewrite filter_app, mounts_of_wiring_calls.
  simpl. destruct (decide (c = child)) as [<-|Hne].
  - rewrite Hother, app_nil_r, Hr, Hspec by done.
    destruct (JsMap.get parent (routerMap t)) as [pr|]; [|done].
    by rewrite decide_True.
  - rewrite IH by done.
    destruct (JsMap.get parent (routerMap t)) as [pr|]; [|done].
    destruct (JsMap.get child (routerMap t)) as [cr|] eqn:Hcr; [|done].
    destruct (JsMap.get child (controllerMap t)) as [cs|]; [|done].
    case_decide as Heq; [|done]. subst cr.
    exfalso. apply Hne. by apply (Hinj c child r).
Qed.

(** X11: when [applyRoutes] returns normally on a registry that had no
    routers, every controller that is declared and has routes has its
    router mounted exactly once in the run, at the controller's root
    path: on the application when the controller has no parent entry, on
    its parent's router when it has one. *)
Theorem X11_assembled_controller_mounted_once a s c spec :
  wf_state s ->
  routerMap s = [] ->
  outcome (applyRoutes (External a)) s = Ok tt ->
  JsMap.get c (controllerMap s) = Some spec ->
  assembles c s = true ->
  exists r emitted target,
    JsMap.get c (routerMap (exec (applyRoutes (External a)) s)) = Some r
    /\ calls (exec (applyRoutes (External a)) s) = calls s ++ emitted
    /\ filter (is_mount_of r) emitted = [Mount target (root spec) r]
    /\ match JsMap.get c (parentMap s) with
       | None => target = External a
       | Some parent =>
           JsMap.get parent (routerMap (exec (applyRoutes (External a)) s))
           = Some target
       end.
Proof.
  intros Hwf Hfresh Hok Hspec Hasm.
  destruct (pass1_controller a s c spec (wf_controllerMap s Hwf) Hspec Hasm)
    as (n & before & after & _ & Hr & Hcalls & Hb & Ha).
  unfold exec, outcome in *. rewrite applyRoutes_run in *.
  set (t := assemble (External a) (controllerMap s) s) in *.
  rewrite (forOf_wire_ok_calls _ _ Hok).
  destruct (same_input_assemble (External a) (controllerMap s) s)
    as (_ & Hcm & _ & _ & Hpm). fold t in Hcm, Hpm.
  assert (Hinv : registry_inv t).
  { apply registry_inv_assemble.
    split; [done|..]; intros ?; by rewrite Hfresh. }
  assert (Hmounts :
    filter (is_mount_of (Created n))
      ((before ++ controller_calls (External a) c spec n s ++ after)
       ++ flat_map (wiring_calls t) (parentMap s))
    = (if JsMap.has c (parentMap s) then []
       else [Mount (External a) (root spec) (Created n)])
      ++ match JsMap.get c (parentMap s) with
         | Some parent =>
             match JsMap.get parent (routerMap t) with
             | Some pr => [Mount pr (root spec) (Created n)]
             | None => []
             end
         | None => []
         end).
  { rewrite !filter_app.
    rewrite (mount_of_unrelated _ before), (mount_of_unrelated _ after)
      by done.
    rewrite mount_of_controller_calls by done.
    rewrite (mounts_of_wiring t (parentMap s) c (Created n) spec);
      [by rewrite app_nil_r | apply (inv_injective t Hinv)
      | apply (wf_parentMap s Hwf) | done | by rewrite <- Hcm]. }
  unfold JsMap.has in Hmounts.
  destruct (JsMap.get c (parentMap s)) as [parent|] eqn:Hparent.
  - assert (Hp : is_Some (JsMap.get parent (routerMap t))).
    { apply (forOf_wire_ok_iff (parentMap s) t) with (child := c); try done.
      - apply routers_have_specs_assemble.
        + intros [c' spec'] Hin. by eapply elem_get_is_Some.
        + intros c' r'. by rewrite Hfresh.
      - by apply get_Some_elem. }
    destruct Hp as [pr Hp]. rewrite Hp in Hmounts.
    exists (Created n),
      ((before ++ controller_calls (External a) c spec n s ++ after)
       ++ flat_map (wiring_calls t) (parentMap s)), pr.
    simpl. rewrite Hcalls. split_and!; try done. by rewrite <- !app_assoc.
  - exists (Created n),
      ((before ++ controller_calls (External a) c spec n s ++ after)
       ++ flat_map (wiring_calls t) (parentMap s)), (External a).
    simpl. rewrite Hcalls. split_and!; try done. by rewrite <- !app_assoc.
Qed.

Lemma wf_state_registered rs : wf_state (registered rs initial).
Proof.
  assert (H : forall s, wf_state s -> wf_state (registered rs s)).
  { induction rs as [|r rs IH]; intros s Hs; simpl; [done|].
    by apply IH, wf_state_register. }
  apply H, wf_state_initial.
Qed.

Lemma X11_assembled_controller_mounted_once_witness :
  exists r emitted target,
    JsMap.get 2 (routerMap (exec (applyRoutes (External 0))
                              (registered demo_script initial))) = Some r
    /\ calls (exec (applyRoutes (External 0)) (registered demo_script initial))
       = calls (registered demo_script initial) ++ emitted
    /\ filter (is_mount_of r) emitted = [Mount target (PathStr "/b") r]
    /\ JsMap.get 1 (routerMap (exec (applyRoutes (External 0))
                                 (registered demo_script initial)))
       = Some target.
Proof.
  apply (X11_assembled_controller_mounted_once 0
           (registered demo_script initial) 2
           (mkControllerSpec None (PathStr "/b"))).
  - apply wf_state_registered.
  - vm_compute; reflexivity.
  - vm_compute; reflexivity.
  - vm_compute; reflexivity.
  - vm_compute; reflexivity.
Defined.

(** ** The order in which handlers are registered *)

Lemma verb_routes_of_routes_calls s r (rs : RouteSpec) :
  omap verb_route (routes_calls s r rs) = route_list rs.
Proof.
  unfold routes_calls, route_list.
  induction rs as [|[m hms] rs IH]; simpl; [done|].
  rewrite omap_app, IH. f_equal. clear IH.
  unfold method_calls, method_routes. simpl.
  induction hms as [|[p h] hms IH]; simpl; [done|].
  rewrite omap_app, IH. f_equal.
  unfold handler_calls, routeMiddleware_calls. simpl.
  by destruct (JsMap.get h (routeMiddlewareMap s)) as [[|x mw]|].
Qed.

Lemma verb_routes_of_wiring r cs :
  Forall (fun c => is_use c = true \/ is_mount c = true) cs ->
  omap verb_route (stack_of r cs) = [].
Proof.
  induction 1 as [|call cs Hcall _ IH]; [done|].
  unfold stack_of in *. rewrite filter_cons. case_decide; [|done].
  destruct call; simpl in Hcall; try (by destruct Hcall);
    change (omap verb_route (?x :: ?l)) with (omap verb_route l); exact IH.
Qed.

(** X12: on the router of a controller, [applyRoutes] registers the
    handlers in the order in which the controller's route spec is
    enumerated: method by method, the method names that are array indices
    first, in ascending order, then the others in the order in which they
    were first registered for the controller, and within a method path by
    path in the order of first registration; neither Pass 2 nor another
    controller adds a handler. *)
Theorem X12_handlers_registered_in_table_order a s c spec :
  JsMap.wf (controllerMap s) ->
  JsMap.get c (controllerMap s) = Some spec ->
  assembles c s = true ->
  exists r emitted,
    JsMap.get c (routerMap (exec (applyRoutes (External a)) s)) = Some r
    /\ calls (exec (applyRoutes (External a)) s) = calls s ++ emitted
    /\ omap verb_route (stack_of r emitted) = routes_in_order c s.
Proof.
  intros Hwf Hspec Hasm.
  destruct (pass1_controller a s c spec Hwf Hspec Hasm)
    as (n & before & after & _ & Hr & Hcalls & Hb & Ha).
  unfold exec. rewrite applyRoutes_run.
  destruct (forOf_wire_calls (parentMap s)
              (assemble (External a) (controllerMap s) s))
    as (wiring & -> & Hwiring).
  exists (Created n),
    ((before ++ controller_calls (External a) c spec n s ++ after)
     ++ wiring).
  split_and!; [exact Hr | simpl; by rewrite Hcalls, <- !app_assoc |].
  unfold routes_in_order, assembles in *.
  destruct (JsMap.get c (routeMap s)) as [rs|] eqn:Hrs; [|done].
  unfold stack_of. rewrite !filter_app.
  fold (stack_of (Created n) before) (stack_of (Created n) after)
    (stack_of (Created n) wiring)
    (stack_of (Created n) (controller_calls (External a) c spec n s)).
  rewrite (stack_of_unrelated _ before), (stack_of_unrelated _ after)
    by done.
  rewrite (stack_of_controller_calls a c spec n s rs)
    by (done || (unfold assembles; by rewrite Hrs)).
  rewrite app_nil_r. simpl. rewrite !omap_app.
  rewrite verb_routes_of_wiring, verb_routes_of_routes_calls, app_nil_r
    by done.
  unfold controllerMiddleware_calls.
  by destruct (JsMap.get c (controllerMiddlewareMap s)).
Qed.

Lemma X12_handlers_registered_in_table_order_witness :
  exists r emitted,
    JsMap.get 1 (routerMap (exec (applyRoutes (External 0))
                              (exec demo initial))) = Some r
    /\ calls (exec (applyRoutes (External 0)) (exec demo initial))
       = calls (exec demo initial) ++ emitted
    /\ omap verb_route (stack_of r emitted)
       = routes_in_order 1 (exec demo initial).
Proof.
  apply (X12_handlers_registered_in_table_order 0 (exec demo initial) 1
           (mkControllerSpec None (PathStr "/a"))).
  - by_compute.
  - vm_compute; reflexivity.
  - vm_compute; reflexivity.
Defined.

Lemma set_new {K V} `{EqDecision K} (m : JsMap.t K V) k v :
  JsMap.get k m = None -> JsMap.set k v m = m ++ [(k, v)].
Proof.
  induction m as [|[k' v'] m IH]; simpl; [done|].
  destruct (decide (k = k')); [done|]. intros Hget. by rewrite IH.
Qed.

Lemma set_split {K V} `{EqDecision K} (m : JsMap.t K V) k v0 :
  JsMap.get k m = Some v0 ->
  exists m1 m2,
    m = m1 ++ (k, v0) :: m2
    /\ (k ∉ m1.*1)
    /\ forall v, JsMap.set k v m = m1 ++ (k, v) :: m2.
Proof.
  induction m as [|[k' v'] m IH]; simpl; [done|].
  destruct (decide (k = k')) as [<-|Hne].
  - intros [= ->]. exists [], m. split_and!; [done | apply not_elem_of_nil|].
    intros v. simpl. by rewrite ?decide_True.
  - intros Hget. destruct (IH Hget) as (m1 & m2 & -> & Hm1 & Hset).
    exists ((k', v') :: m1), m2. split_and!; [done | |].
    + rewrite fmap_cons. apply not_elem_of_cons. by split.
    + intros v. simpl. rewrite ?decide_False by done. by rewrite Hset.
Qed.

Lemma route_list_other_method (rs : list (string * HttpMethodSpec)) m :
  m ∉ rs.*1 -> Forall (fun x => x.1.1 <> m) (route_list rs).
Proof.
  intros Hm. unfold route_list. apply Forall_flat_map, Forall_forall.
  intros [m' hms] Hin. unfold method_routes. simpl.
  apply Forall_fmap, Forall_forall. intros [p h] _. simpl.
  intros ->. apply Hm. apply list_elem_of_fmap. by exists (m, hms).
Qed.

Lemma route_list_app (l1 l2 : list (string * HttpMethodSpec)) :
  route_list (l1 ++ l2) = route_list l1 ++ route_list l2.
Proof. unfold route_list. apply flat_map_app. Qed.

(** X13: where [addRoute] puts a route in the order in which the routes
    of its controller are enumerated, for a method name that is neither an
    array index nor a name every object inherits.  When the controller
    has no route yet for the method, the route goes last of all.  When it
    has, the route joins the routes of that method: in the place of the
    route of the same path if there is one, after the last of them
    otherwise, and so before the routes of every method that is
    enumerated later. *)
Theorem X13_addRoute_groups_by_method c m p h s :
  wf_routes (routeMap s) ->
  array_index m = None ->
  m ∉ Object_prototype ->
  match method_spec c m s with
  | None =>
      routes_in_order c (exec (addRoute c m p h) s)
      = routes_in_order c s ++ [(m, p, h)]
  | Some hms =>
      exists l1 l2,
        routes_in_order c s = l1 ++ method_routes (m, hms) ++ l2
        /\ routes_in_order c (exec (addRoute c m p h) s)
           = l1 ++ method_routes (m, JsMap.set p h hms) ++ l2
        /\ Forall (fun x => x.1.1 <> m) (l1 ++ l2)
  end.
Proof.
  intros [_ Hwf] Hname Hmethod. unfold exec. rewrite addRoute_run by done.
  unfold method_spec, routes_in_order, put_route. simpl.
  rewrite get_set_eq.
  destruct (JsMap.get c (routeMap s)) as [rs|] eqn:Hrs; simpl.
  2:{ rewrite ownEntries_named; [done|]. by apply Forall_singleton. }
  destruct (JsMap.get m rs) as [hms|] eqn:Hm; simpl.
  - destruct (set_split rs m hms Hm) as (rs1 & rs2 & -> & Hrs1 & ->).
    rewrite !ownEntries_named_middle by done.
    set (first := (sort_indexed (indexed_entries (rs1 ++ rs2))).*2).
    exists (route_list (first ++ named_entries rs1)),
      (route_list (named_entries rs2)).
    rewrite !app_assoc, !route_list_app. cbn [route_list flat_map].
    rewrite <- !app_assoc. split_and!; [done..|].
    destruct (Hwf c _ (get_Some_elem _ _ _ Hrs)) as [Hnodup _].
    unfold JsMap.wf, JsMap.keys in Hnodup.
    rewrite fmap_app, fmap_cons in Hnodup.
    apply NoDup_app in Hnodup as (_ & _ & Hnodup).
    apply NoDup_cons in Hnodup as [Hrs2 _].
    rewrite <- !route_list_app. apply route_list_other_method.
    rewrite <- named_entries_app.
    change (first ++ named_entries (rs1 ++ rs2))
      with (ownEntries (rs1 ++ rs2)).
    rewrite ownEntries_perm, fmap_app, not_elem_of_app. by split.
  - rewrite set_new by done.
    rewrite <- (app_nil_r (rs ++ [_])), <- app_assoc. cbn [app].
    rewrite ownEntries_named_middle by done.
    rewrite !app_nil_r. cbn [named_entries filter list_filter].
    rewrite app_assoc, route_list_app. f_equal.
Qed.

Lemma X13_addRoute_groups_by_method_witness :
  exists l1 l2,
    routes_in_order 1
      (registered (demo_script ++ [RegRoute 1 "post" (PathStr "/p") 17])
         initial)
    = l1 ++ method_routes ("get", [(PathStr "/x", 10)]) ++ l2
    /\ routes_in_order 1
         (exec (addRoute 1 "get" (PathStr "/w") 18)
            (registered (demo_script ++ [RegRoute 1 "post" (PathStr "/p") 17])
               initial))
       = l1 ++ method_routes ("get", [(PathStr "/x", 10); (PathStr "/w", 18)])
         ++ l2
    /\ Forall (fun x => x.1.1 <> "get") (l1 ++ l2).
Proof.
  assert (Hmethod : "get" ∉ Object_prototype) by by_compute.
  pose proof (X13_addRoute_groups_by_method 1 "get" (PathStr "/w") 18
                (registered
                   (demo_script ++ [RegRoute 1 "post" (PathStr "/p") 17])
                   initial)
                (wf_routeMap _ (wf_state_registered _)) eq_refl Hmethod) as H.
  vm_compute in H. vm_compute. exact H.
Defined.

(** ** The whole dispatch stack of a router *)

Lemma stack_of_wiring_calls t e c r pr cr cs :
  (forall c1 c2 x, JsMap.get c1 (routerMap t) = Some x ->
                   JsMap.get c2 (routerMap t) = Some x -> c1 = c2) ->
  JsMap.get c (routerMap t) = Some r ->
  JsMap.get e.2 (routerMap t) = Some pr ->
  JsMap.get e.1 (routerMap t) = Some cr ->
  JsMap.get e.1 (controllerMap t) = Some cs ->
  stack_of r (wiring_calls t e) = wiring_on t c r e.
Proof.
  intros Hinj Hr Hp Hc Hcs. unfold wiring_calls, wiring_on, stack_of.
  rewrite Hp, Hc, Hcs, filter_app. f_equal.
  - destruct (decide (e.1 = c)) as [Hchild|Hchild].
    + rewrite Hchild, Hr in Hc. inversion Hc; subst cr.
      apply filter_all. unfold parentMiddleware_calls.
      destruct (JsMap.get e.2 (controllerMiddlewareMap t)) as [[|x mw]|];
        [apply Forall_nil_2 | by apply Forall_singleton | apply Forall_nil_2].
    + apply filter_none. unfold parentMiddleware_calls.
      destruct (JsMap.get e.2 (controllerMiddlewareMap t)) as [[|x mw]|];
        [apply Forall_nil_2 | apply Forall_singleton | apply Forall_nil_2].
      simpl. intros [= ->]. apply Hchild. by apply (Hinj e.1 c r).
  - destruct (decide (e.2 = c)) as [Hparent|Hparent].
    + rewrite Hparent, Hr in Hp. inversion Hp; subst pr.
      by rewrite filter_cons_True.
    + rewrite filter_cons_False; [done|].
      simpl. intros [= ->]. apply Hparent. by apply (Hinj e.2 c r).
Qed.

Lemma stack_of_wiring t (l : list (Ctrl * Ctrl)) c r :
  (forall c1 c2 x, JsMap.get c1 (routerMap t) = Some x ->
                   JsMap.get c2 (routerMap t) = Some x -> c1 = c2) ->
  routers_have_specs t ->
  JsMap.get c (routerMap t) = Some r ->
  (forall child parent, (child, parent) ∈ l ->
     is_Some (JsMap.get parent (routerMap t))
     /\ is_Some (JsMap.get child (routerMap t))) ->
  stack_of r (flat_map (wiring_calls t) l) = flat_map (wiring_on t c r) l.
Proof.
  intros Hinj Hspecs Hr. induction l as [|[child parent] l IH]; intros Hall;
    [done|].
  simpl. unfold stack_of in *. rewrite filter_app, IH.
  2:{ intros ch pa Hin. apply Hall, elem_of_cons. by right. }
  f_equal.
  destruct (Hall child parent) as [[pr Hp] [cr Hc]];
    [apply elem_of_cons; by left|].
  destruct (Hspecs child cr Hc) as [cs Hcs].
  by apply (stack_of_wiring_calls t (child, parent) c r pr cr cs).
Qed.

(** X14: when [applyRoutes] returns normally on a registry that had no
    routers, the calls made on the router of a controller are, in order:
    its controller middleware, its routes in the order in which its route
    spec is enumerated (each as route middleware then handler), and then, pair by pair in the order of the parent table,
    its parent's middleware where it is the child and the mount of the
    child's router where it is the parent.  Nothing else is ever called
    on that router. *)
Theorem X14_router_dispatch_stack a s c spec rs :
  wf_state s ->
  routerMap s = [] ->
  outcome (applyRoutes (External a)) s = Ok tt ->
  JsMap.get c (controllerMap s) = Some spec ->
  JsMap.get c (routeMap s) = Some rs ->
  rs <> [] ->
  exists r emitted,
    JsMap.get c (routerMap (exec (applyRoutes (External a)) s)) = Some r
    /\ calls (exec (applyRoutes (External a)) s) = calls s ++ emitted
    /\ stack_of r emitted
       = controllerMiddleware_calls s r c
         ++ routes_calls s r (ownEntries rs)
         ++ flat_map (wiring_on (exec (applyRoutes (External a)) s) c r)
              (parentMap s).
Proof.
  intros Hwf Hfresh Hok Hspec Hrs Hne.
  assert (Hasm : assembles c s = true).
  { unfold assembles. rewrite Hrs. by destruct rs. }
  destruct (pass1_controller a s c spec (wf_controllerMap s Hwf) Hspec Hasm)
    as (n & before & after & _ & Hr & Hcalls & Hb & Ha).
  unfold exec, outcome in *. rewrite applyRoutes_run in *.
  set (t := assemble (External a) (controllerMap s) s) in *.
  rewrite (forOf_wire_ok_calls _ _ Hok).
  assert (Hinv : registry_inv t).
  { apply registry_inv_assemble.
    split; [done|..]; intros ?; by rewrite Hfresh. }
  assert (Hspecs : routers_have_specs t).
  { apply routers_have_specs_assemble.
    - intros [c' spec'] Hin. by eapply elem_get_is_Some.
    - intros c' r'. by rewrite Hfresh. }
  exists (Created n),
    ((before ++ controller_calls (External a) c spec n s ++ after)
     ++ flat_map (wiring_calls t) (parentMap s)).
  split_and!; [exact Hr | simpl; by rewrite Hcalls, <- !app_assoc |].
  unfold stack_of at 1. rewrite !filter_app.
  fold (stack_of (Created n) before) (stack_of (Created n) after)
    (stack_of (Created n) (flat_map (wiring_calls t) (parentMap s)))
    (stack_of (Created n) (controller_calls (External a) c spec n s)).
  rewrite (stack_of_unrelated _ before), (stack_of_unrelated _ after)
    by done.
  rewrite (stack_of_controller_calls a c spec n s rs) by done.
  rewrite (stack_of_wiring t (parentMap s) c (Created n));
    [ | apply (inv_injective t Hinv) | done | done
      | by apply (forOf_wire_ok_iff (parentMap s) t Hspecs) ].
  rewrite app_nil_r. simpl. by rewrite <- !app_assoc.
Qed.

Lemma X14_router_dispatch_stack_witness :
  exists r emitted,
    JsMap.get 1 (routerMap (exec (applyRoutes (External 0))
                              (registered demo_script initial))) = Some r
    /\ calls (exec (applyRoutes (External 0)) (registered demo_script initial))
       = calls (registered demo_script initial) ++ emitted
    /\ stack_of r emitted
       = controllerMiddleware_calls (registered demo_script initial) r 1
         ++ routes_calls (registered demo_script initial) r
              (ownEntries [("get", [(PathStr "/x", 10)])])
         ++ flat_map
              (wiring_on (exec (applyRoutes (External 0))
                            (registered demo_script initial)) 1 r)
              (parentMap (registered demo_script initial)).
Proof.
  apply (X14_router_dispatch_stack 0 (registered demo_script initial) 1
           (mkControllerSpec None (PathStr "/a"))
           [("get", [(PathStr "/x", 10)])]).
  - apply wf_state_registered.
  - vm_compute; reflexivity.
  - vm_compute; reflexivity.
  - vm_compute; reflexivity.
  - vm_compute; reflexivity.
  - discriminate.
Defined.
